(** * Verification of [scripts/dev/generate_config_types.py]

    A shallow embedding of the generator that turns the flat, dotted-key
    configuration schema into nested dataclass definitions, together with
    the properties of its three parts: the key tree builder
    ([make_nested_config]), the type expression resolver ([get_type_hint])
    and the record emitter ([generate_class]).

    Python [str] values are modelled as [string]; the schema keys, type
    names and documentation texts are ASCII text.  Python dictionaries keep
    insertion order, which the emitter observes, so they are association
    lists with unique keys. *)

From Stdlib Require Import List String Ascii Bool Arith ZArith Lia Permutation.
Import ListNotations.
Open Scope string_scope.

(** ** Python string built-ins used by the script *)

Module py.

Definition dquote : ascii := "034"%char.
Definition squote : ascii := "039"%char.
Definition backslash : ascii := "092"%char.
Definition newline : ascii := "010"%char.
Definition tab : ascii := "009"%char.
Definition cr : ascii := "013"%char.

Definition str (c : ascii) : string := String c EmptyString.

(** [s.split(sep)] for a one-character separator: never empty. *)
Fixpoint split (sep : ascii) (s : string) : list string :=
  match s with
  | EmptyString => [EmptyString]
  | String c s' =>
      if Ascii.eqb c sep then EmptyString :: split sep s'
      else match split sep s' with
           | [] => [str c]
           | w :: ws => String c w :: ws
           end
  end.

(** [sep.join(ls)] *)
Definition join (sep : string) (ls : list string) : string :=
  String.concat sep ls.

Definition upper (c : ascii) : ascii :=
  let n := nat_of_ascii c in
  if ((97 <=? n) && (n <=? 122))%nat then ascii_of_nat (n - 32) else c.

Definition lower (c : ascii) : ascii :=
  let n := nat_of_ascii c in
  if ((65 <=? n) && (n <=? 90))%nat then ascii_of_nat (n + 32) else c.

Fixpoint map_chars (f : ascii -> ascii) (s : string) : string :=
  match s with
  | EmptyString => EmptyString
  | String c s' => String (f c) (map_chars f s')
  end.

(** [s.capitalize()]: first character upper-cased, the others
    lower-cased. *)
Definition capitalize (s : string) : string :=
  match s with
  | EmptyString => EmptyString
  | String c s' => String (upper c) (map_chars lower s')
  end.

(** [s.replace(old, new)] for a non-empty [old]: occurrences are replaced
    from the left and do not overlap.  [skip] counts the characters of a
    match that are still to be dropped. *)
Fixpoint replace_from (old new : string) (skip : nat) (s : string) : string :=
  match s with
  | EmptyString => EmptyString
  | String c s' =>
      match skip with
      | S k => replace_from old new k s'
      | O =>
          if String.prefix old s
          then new ++ replace_from old new (String.length old - 1) s'
          else String c (replace_from old new 0 s')
      end
  end.

Definition replace (old new s : string) : string := replace_from old new 0 s.

(** [s.endswith(suffix)] *)
Definition endswith (s suffix : string) : bool :=
  (String.length suffix <=? String.length s)%nat
  && String.eqb
       (String.substring (String.length s - String.length suffix)
          (String.length suffix) s)
       suffix.

Fixpoint contains_char (c : ascii) (s : string) : bool :=
  match s with
  | EmptyString => false
  | String c' s' => Ascii.eqb c' c || contains_char c s'
  end.

Definition hex_digit (n : nat) : ascii :=
  if (n <? 10)%nat then ascii_of_nat (48 + n) else ascii_of_nat (87 + n).

(** [repr(s)] of a [str]: single quotes unless the text holds a single
    quote and no double quote; the quote and the backslash are escaped,
    control characters are written as escapes (characters are read as
    code points below 256). *)
Definition repr_char (quote c : ascii) : string :=
  let n := nat_of_ascii c in
  if Ascii.eqb c quote || Ascii.eqb c backslash then String backslash (str c)
  else if Ascii.eqb c tab then String backslash "t"
  else if Ascii.eqb c newline then String backslash "n"
  else if Ascii.eqb c cr then String backslash "r"
  else if ((n <? 32) || ((127 <=? n) && (n <=? 160)) || (n =? 173))%nat
       then String backslash (String "x" (String (hex_digit (n / 16)) (str (hex_digit (n mod 16)))))
  else str c.

Fixpoint repr_body (quote : ascii) (s : string) : string :=
  match s with
  | EmptyString => EmptyString
  | String c s' => repr_char quote c ++ repr_body quote s'
  end.

Definition repr (s : string) : string :=
  let quote :=
    if contains_char squote s && negb (contains_char dquote s)
    then dquote else squote in
  String quote (repr_body quote s ++ str quote).

(** Exceptions the builder can raise, with their messages. *)
Inductive Exception : Type :=
| TypeError (msg : string)
| AttributeError (msg : string).

(** Outcome of a call: a value, or a raised exception. *)
Inductive Result (A : Type) : Type :=
| Ok (a : A)
| Raise (e : Exception).
Arguments Ok {A} a.
Arguments Raise {A} e.

Definition bind {A B : Type} (r : Result A) (k : A -> Result B) : Result B :=
  match r with
  | Ok a => k a
  | Raise e => Raise e
  end.

(** Insertion-ordered [dict] with [str] keys. *)
Section Dict.
Context {A : Type}.

Fixpoint get (k : string) (d : list (string * A)) : option A :=
  match d with
  | [] => None
  | (k', v) :: rest => if String.eqb k' k then Some v else get k rest
  end.

(** [d[k] = v]: an existing key keeps its position, a new one goes
    last. *)
Fixpoint set (k : string) (v : A) (d : list (string * A)) : list (string * A) :=
  match d with
  | [] => [(k, v)]
  | (k', v') :: rest =>
      if String.eqb k' k then (k, v) :: rest else (k', v') :: set k v rest
  end.

Definition keys (d : list (string * A)) : list string := map fst d.
End Dict.

End py.

Notation "x <- r ;; k" := (py.bind r (fun x => k))
  (at level 61, r at next level, right associativity).

(** ** The schema data consumed by the script *)

(** Modelled from the spec: the descriptor classes of
    [qutebrowser.config.configtypes], which the script imports.  One
    constructor per class named in the [isinstance] tests of
    [_get_type_hint] (a subclass counts as the class it derives from);
    every descriptor carries the [none_ok] flag and the valid values that
    [get_valid_values()] reports ([None] when it has none). *)
Module configtypes.

Record Attrs : Type := mkAttrs {
  attr_none_ok : bool;
  attr_valid_values : option (list string)
}.

Inductive ConfigType : Type :=
| List (a : Attrs) (valtype : ConfigType)
| Dict (a : Attrs) (keytype valtype : ConfigType)
| Bool (a : Attrs)
| MappingType (a : Attrs) (MAPPING : list string)
| String (a : Attrs)
| FontBase (a : Attrs)
| QtColor (a : Attrs)
| QssColor (a : Attrs)
| Command (a : Attrs)
| Key (a : Attrs)
| SessionName (a : Attrs)
| Url (a : Attrs)
| File (a : Attrs)
| UrlPattern (a : Attrs)
| FormatString (a : Attrs)
| Directory (a : Attrs)
| Encoding (a : Attrs)
| FuzzyUrl (a : Attrs)
| SearchEngineUrl (a : Attrs)
| Proxy (a : Attrs)
| Int (a : Attrs)
| Float (a : Attrs)
| ListOrValue (a : Attrs) (valtype listtype : ConfigType)
| Perc (a : Attrs)
| PercOrInt (a : Attrs)
| Regex (a : Attrs).

Definition attrs (typ : ConfigType) : Attrs :=
  match typ with
  | List a _ | Dict a _ _ | Bool a | MappingType a _ | String a
  | FontBase a | QtColor a | QssColor a | Command a | Key a
  | SessionName a | Url a | File a | UrlPattern a | FormatString a
  | Directory a | Encoding a | FuzzyUrl a | SearchEngineUrl a | Proxy a
  | Int a | Float a | ListOrValue a _ _ | Perc a | PercOrInt a
  | Regex a => a
  end.

Definition none_ok (typ : ConfigType) : bool := attr_none_ok (attrs typ).

Definition get_valid_values (typ : ConfigType) : option (list string) :=
  attr_valid_values (attrs typ).

(** A descriptor without valid values, nullable or not. *)
Definition plain (nullable : bool) : Attrs := mkAttrs nullable None.

End configtypes.

Abbreviation ConfigType := configtypes.ConfigType.

(** Modelled from the spec: the [Option] class of
    [qutebrowser.config.configdata], of which the script reads the type
    descriptor, the default ([None] when absent) and the documentation
    text.  An [Option] is a plain value object: it has no [setdefault]
    and takes no item assignment. *)
Module configdata.

Inductive Value : Type :=
| VBool (b : bool)
| VInt (z : Z)
| VStr (s : string).

Record Option : Type := mkOption {
  typ : ConfigType;
  default : option Value;
  description : string
}.

End configdata.

Abbreviation Option := configdata.Option.

(** [NestedConfig = dict[str, Union[Option, NestedConfig]]]: a value of
    the dictionary is an option or a nested dictionary. *)
#[warnings="-register-all"]
Inductive ConfigValue : Type :=
| VOption (o : Option)
| VDict (d : list (string * ConfigValue)).

Definition NestedConfig : Type := list (string * ConfigValue).

(** ** Type expression resolver (lines 38-108) *)

(** [get_type_hint] wraps the hint of [_get_type_hint] when the descriptor
    is nullable; the two functions call each other, so the wrapper is first
    given over the function it wraps. *)
Definition get_type_hint_over (_get_type_hint : ConfigType -> string)
    (typ : ConfigType) : string :=
  let inner := _get_type_hint typ in
  if configtypes.none_ok typ then "Optional[" ++ inner ++ "]" else inner.

Fixpoint _get_type_hint (typ : ConfigType) : string :=
  let get_type_hint := get_type_hint_over _get_type_hint in
  match typ with
  | configtypes.List _ valtype => "list[" ++ get_type_hint valtype ++ "]"
  | configtypes.Dict _ keytype valtype =>
      "Mapping[" ++ get_type_hint keytype ++ ", " ++ get_type_hint valtype ++ "]"
  | configtypes.Bool _ => "bool"
  | _ =>
      match configtypes.get_valid_values typ with
      | Some values => "Literal[" ++ py.join ", " (map py.repr values) ++ "]"
      | None =>
          match typ with
          | configtypes.MappingType _ MAPPING =>
              "Literal[" ++ py.join ", " (map py.repr MAPPING) ++ "]"
          | configtypes.String _ | configtypes.FontBase _
          | configtypes.QtColor _ | configtypes.QssColor _
          | configtypes.Command _ | configtypes.Key _
          | configtypes.SessionName _ | configtypes.Url _
          | configtypes.File _ | configtypes.UrlPattern _
          | configtypes.FormatString _ | configtypes.Directory _
          | configtypes.Encoding _ | configtypes.FuzzyUrl _
          | configtypes.SearchEngineUrl _ | configtypes.Proxy _ => "str"
          | configtypes.Int _ => "int"
          | configtypes.Float _ => "float"
          | configtypes.ListOrValue _ valtype listtype =>
              "Union[" ++ get_type_hint valtype ++ ", " ++ get_type_hint listtype ++ "]"
          | configtypes.Perc _ => "Union[float, int, str]"
          | configtypes.PercOrInt _ => "Union[int, str]"
          | configtypes.Regex _ => "Union[str, re.Pattern[str]]"
          | configtypes.List _ _ | configtypes.Dict _ _ _
          | configtypes.Bool _ => ""
          end
      end
  end.

(** Turn a config type into a Python type annotation. *)
Definition get_type_hint (typ : ConfigType) : string :=
  get_type_hint_over _get_type_hint typ.

(** ** Record emitter (lines 111-217) *)

Definition snake_to_camel (name : string) : string :=
  py.join "" (map py.capitalize (py.split "_" name)).

Definition literal (v : string) : string :=
  py.str py.dquote ++ v ++ py.str py.dquote.

Definition triple_quotes : string :=
  String py.dquote (String py.dquote (py.str py.dquote)).

(** Surround the given string with triple double quotes; a backslash
    followed by a plus sign gets its backslash doubled. *)
Definition triple_quote (v : string) : string :=
  triple_quotes
  ++ py.replace (String py.backslash "+")
       (String py.backslash (String py.backslash "+")) v
  ++ triple_quotes.

(** [enumerate(lines)] *)
Definition enumerate {A : Type} (l : list A) : list (nat * A) :=
  combine (seq 0 (List.length l)) l.

(** The documentation string of an option inside a class indented by
    [indent] (lines 171-179). *)
Definition field_description (indent description : string) : string :=
  let lines := py.split py.newline description in
  let description :=
    py.join (String py.newline (py.str py.newline))
      (map (fun '(i, line) => if (i =? 0)%nat then line else indent ++ "    " ++ line)
           (enumerate lines)) in
  if negb (py.endswith description (py.str py.newline))
     && (1 <? List.length lines)%nat
  then description ++ String py.newline (indent ++ "    ")
  else description.

(** The lines a leaf option adds to its class (lines 164-181). *)
Definition option_lines (indent key : string) (value : Option) : list string :=
  let type_hint := get_type_hint (configdata.typ value) in
  (match configdata.default value with
   | None => indent ++ "    " ++ key ++ ": Optional[" ++ type_hint ++ "]"
   | Some _ => indent ++ "    " ++ key ++ ": " ++ type_hint
   end)
  :: (if String.eqb (configdata.description value) "" then []
      else [indent ++ "    "
            ++ triple_quote (field_description indent (configdata.description value))
            ++ py.str py.newline]).

(** The start of a class definition (lines 155-160). *)
Definition class_head (indent class_name : string)
    (description : option string) : list string :=
  [indent ++ "@dataclass"; indent ++ "class " ++ class_name ++ ":"]
  ++ match description with
     | Some d => [indent ++ "    " ++ triple_quote d]
     | None => []
     end.

(** [generate_class] over the body of its loop, which calls it back for a
    nested dictionary. *)
Definition generate_class_over
    (member : string -> string -> ConfigValue -> list string)
    (class_name : string) (config : NestedConfig) (indent : string)
    (description : option string) : list string :=
  class_head indent class_name description
  ++ flat_map (fun '(key, value) => member indent key value) config.

(** One iteration of the loop of [generate_class] (lines 162-189). *)
Fixpoint class_member (indent key : string) (value : ConfigValue) : list string :=
  match value with
  | VOption o => option_lines indent key o
  | VDict d =>
      let nested_class_name := "_" ++ snake_to_camel key in
      (indent ++ "    " ++ key ++ ": " ++ nested_class_name)
      :: generate_class_over class_member nested_class_name d
           (indent ++ "    ") None
  end.

Definition generate_class (class_name : string) (config : NestedConfig)
    (indent : string) (description : option string) : list string :=
  generate_class_over class_member class_name config indent description.

(** ** Key tree builder (lines 22-35) *)

Definition no_setdefault : string := "'Option' object has no attribute 'setdefault'".
Definition no_item_assignment : string := "'Option' object does not support item assignment".

(** The body of the outer loop for one key: walk [path] (the parts but the
    last) through [current] with [setdefault], then store the option under
    [name] (the last part).  Walking onto an option does not fail by
    itself; the next operation on it does, [setdefault] when parts remain
    and the item assignment otherwise. *)
Fixpoint store_option (path : list string) (name : string) (value : Option)
    (current : NestedConfig) : py.Result NestedConfig :=
  match path with
  | [] => py.Ok (py.set name (VOption value) current)
  | part :: path' =>
      match
        match py.get part current with Some v => v | None => VDict [] end
      with
      | VDict child =>
          child' <- store_option path' name value child ;;
          py.Ok (py.set part (VDict child') current)
      | VOption _ =>
          match path' with
          | [] => py.Raise (py.TypeError no_item_assignment)
          | _ :: _ => py.Raise (py.AttributeError no_setdefault)
          end
      end
  end.

(** The loop over [config.items()], from the dictionary built so far. *)
Fixpoint store_options (items : list (string * Option)) (result : NestedConfig)
  : py.Result NestedConfig :=
  match items with
  | [] => py.Ok result
  | (key, value) :: rest =>
      let parts := py.split "." key in
      result' <- store_option (removelast parts) (last parts "") value result ;;
      store_options rest result'
  end.

Definition make_nested_config (config : list (string * Option))
  : py.Result NestedConfig :=
  store_options config [].

(** ** The generator (lines 111-202) *)

(** The module docstring of the generated file: the value of
    [textwrap.dedent(...).lstrip()] on the literal of lines 115-134. *)
Definition module_doc : string :=
  py.join (py.str py.newline)
    [ "This file defines static types for the `c` variable in `config.py`.";
      "";
      "This is auto-generated from the `scripts/dev/generate_config_types.py` file.";
      "";
      "It is not intended to be used at runtime.";
      "";
      "Example usage:";
      "```py";
      "from typing import TYPE_CHECKING, cast";
      "";
      "if TYPE_CHECKING:";
      "    from qutebrowser.config.configfiles import ConfigAPI";
      "    from qutebrowser.config.configcontainer import ConfigContainer";
      "";
      "    # note: these expressions aren't executed at runtime";
      "    c = cast(ConfigContainer, ...)";
      "    config = cast(ConfigAPI, ...)";
      "```";
      "" ].

Definition preamble : list string :=
  [ triple_quote module_doc;
    "";
    "# pylint: disable=line-too-long, invalid-name";
    "";
    "from __future__ import annotations";
    "import re";
    "from dataclasses import dataclass";
    "from collections.abc import Mapping";
    "from typing import Optional, Union, Literal";
    "";
    "" ].

Definition container_doc : string := "Type for the `c` variable in `config.py`.".

(** Generate the [ConfigContainer] dataclass and all nested types. *)
Definition generate_config_types (config_data : list (string * Option))
  : py.Result string :=
  nested_config <- make_nested_config config_data ;;
  py.Ok (py.join (py.str py.newline)
           (preamble
            ++ generate_class "ConfigContainer" nested_config ""
                 (Some container_doc))).

(** ** Sample schema entries *)

(** [Option(Bool, default=True, doc="Save session.")] *)
Definition auto_save_session : Option :=
  configdata.mkOption (configtypes.Bool (configtypes.plain false))
    (Some (configdata.VBool true)) "Save session.".

(** [Option(String, default=None, doc="")] *)
Definition font_family : Option :=
  configdata.mkOption (configtypes.String (configtypes.plain false)) None "".

(** A nullable URL without a default. *)
Definition nullable_url : Option :=
  configdata.mkOption (configtypes.Url (configtypes.plain true)) None "".

(** ** The kinds of the specification *)

(** The closed set of kinds of the specification's resolution table: each
    descriptor has the kind of the one row that resolves it.  A descriptor
    that reports valid values (other than a list, a mapping or a boolean)
    is of the enumerated kind, whatever its class; the string-like kind is
    that of the sixteen classes of lines 58-73 without valid values. *)
Inductive Kind : Type :=
| KList | KMapping | KBoolean | KEnumerated | KStringLike | KInteger
| KFloat | KListOrScalar | KPercentage | KPercentageOrInteger | KRegex.

Definition kind_of (typ : ConfigType) : Kind :=
  match typ with
  | configtypes.List _ _ => KList
  | configtypes.Dict _ _ _ => KMapping
  | configtypes.Bool _ => KBoolean
  | _ =>
      match configtypes.get_valid_values typ with
      | Some _ => KEnumerated
      | None =>
          match typ with
          | configtypes.MappingType _ _ => KEnumerated
          | configtypes.Int _ => KInteger
          | configtypes.Float _ => KFloat
          | configtypes.ListOrValue _ _ _ => KListOrScalar
          | configtypes.Perc _ => KPercentage
          | configtypes.PercOrInt _ => KPercentageOrInteger
          | configtypes.Regex _ => KRegex
          | _ => KStringLike
          end
      end
  end.

(** The sixteen classes that lines 58-73 test for. *)
Definition string_class (typ : ConfigType) : bool :=
  match typ with
  | configtypes.String _ | configtypes.FontBase _ | configtypes.QtColor _
  | configtypes.QssColor _ | configtypes.Command _ | configtypes.Key _
  | configtypes.SessionName _ | configtypes.Url _ | configtypes.File _
  | configtypes.UrlPattern _ | configtypes.FormatString _
  | configtypes.Directory _ | configtypes.Encoding _ | configtypes.FuzzyUrl _
  | configtypes.SearchEngineUrl _ | configtypes.Proxy _ => true
  | _ => false
  end.

(** ** Notions used to state the properties *)

(** *** Leaf fields and paths in the key tree *)

(** The annotation line of a leaf option, as lines 164-168 build it. *)
Definition option_field (indent key : string) (value : Option) : string :=
  hd "" (option_lines indent key value).

(** The node found by walking [path] from the root of a tree. *)
Fixpoint lookup (path : list string) (d : NestedConfig) : option ConfigValue :=
  match path with
  | [] => Some (VDict d)
  | part :: path' =>
      match py.get part d with
      | Some (VDict child) => lookup path' child
      | Some (VOption o) =>
          match path' with [] => Some (VOption o) | _ :: _ => None end
      | None => None
      end
  end.

(** Walking [path] from the root comes upon an option, at the end of the
    path or before. *)
Fixpoint option_on_path (path : list string) (d : NestedConfig) : bool :=
  match path with
  | [] => false
  | part :: path' =>
      match py.get part d with
      | Some (VOption _) => true
      | Some (VDict child) => option_on_path path' child
      | None => false
      end
  end.

(** The second list of parts goes strictly further than the first. *)
Definition extends (short long : list string) : Prop :=
  exists more, more <> [] /\ long = (short ++ more)%list.

Definition raises {A : Type} (r : py.Result A) : Prop :=
  exists e,
    r = py.Raise e
    /\ (e = py.TypeError no_item_assignment \/ e = py.AttributeError no_setdefault).

(** *** Reading the emitted class definitions back *)

(** The emitter returns a list of text items; each is read by its
    indentation and its leading word, which ends at the first space, colon
    or double quote. *)
Definition is_delimiter (c : ascii) : bool :=
  Ascii.eqb c " " || Ascii.eqb c ":" || Ascii.eqb c py.dquote.

Fixpoint spaces (n : nat) : string :=
  match n with
  | O => EmptyString
  | S n' => String " " (spaces n')
  end.

Fixpoint leading_spaces (s : string) : nat :=
  match s with
  | EmptyString => 0
  | String c s' => if Ascii.eqb c " " then S (leading_spaces s') else 0
  end.

Fixpoint lstrip (s : string) : string :=
  match s with
  | EmptyString => EmptyString
  | String c s' => if Ascii.eqb c " " then lstrip s' else s
  end.

(** The leading word of a text, with the delimiter that ends it and the
    text after the delimiter. *)
Fixpoint word (s : string) : string * option (ascii * string) :=
  match s with
  | EmptyString => (EmptyString, None)
  | String c s' =>
      if is_delimiter c then (EmptyString, Some (c, s'))
      else let (w, r) := word s' in (String c w, r)
  end.

Fixpoint remove_last (s : string) : string :=
  match s with
  | EmptyString => EmptyString
  | String c s' =>
      match s' with
      | EmptyString => EmptyString
      | String _ _ => String c (remove_last s')
      end
  end.

Definition drop_space (s : string) : string :=
  match s with
  | EmptyString => EmptyString
  | String c s' => if Ascii.eqb c " " then s' else s
  end.

(** What an emitted item is: the [@dataclass] decorator, the [class] line
    with the class name, a documentation string, or the annotation of a
    field with its name and type; each with its indentation. *)
Inductive Line : Type :=
| Decorator (n : nat)
| ClassLine (n : nat) (name : string)
| DocLine (n : nat)
| FieldLine (n : nat) (name type : string)
| OtherLine (n : nat).

Definition indent_of (l : Line) : nat :=
  match l with
  | Decorator n | ClassLine n _ | DocLine n | FieldLine n _ _ | OtherLine n => n
  end.

Definition read_line (item : string) : Line :=
  let n := leading_spaces item in
  match word (lstrip item) with
  | (w, None) => if String.eqb w "@dataclass" then Decorator n else OtherLine n
  | (w, Some (c, rest)) =>
      if Ascii.eqb c ":" then FieldLine n w (drop_space rest)
      else if Ascii.eqb c " "
      then (if String.eqb w "class" then ClassLine n (remove_last rest)
            else OtherLine n)
      else (if String.eqb w "" then DocLine n else OtherLine n)
  end.

(** An emitted record: a class with its fields, each a name and a type
    expression, in the order of emission. *)
Record EmittedRecord : Type := mkRecord {
  record_name : string;
  record_fields : list (string * string)
}.

Fixpoint take_while {A : Type} (p : A -> bool) (l : list A) : list A :=
  match l with
  | [] => []
  | x :: l' => if p x then x :: take_while p l' else []
  end.

(** The fields annotated at indentation [n] among the lines of a class
    body. *)
Definition fields_at (n : nat) (body : list Line) : list (string * string) :=
  flat_map
    (fun l =>
       match l with
       | FieldLine m name type => if (m =? n)%nat then [(name, type)] else []
       | _ => []
       end)
    body.

(** The records of a list of lines, in the order of their decorators: the
    body of a class is made of the lines after its [class] line that are
    indented deeper than its decorator, and its fields are the annotations
    one level (four spaces) deeper. *)
Fixpoint records (lines : list Line) : list EmittedRecord :=
  match lines with
  | [] => []
  | Decorator n :: rest =>
      match rest with
      | ClassLine _ name :: body =>
          [mkRecord name
             (fields_at (n + 4)
                (take_while (fun l => (n <? indent_of l)%nat) body))]
      | _ => []
      end ++ records rest
  | _ :: rest => records rest
  end.

Definition emitted_records (class_def : list string) : list EmittedRecord :=
  records (map read_line class_def).

(** *** The key tree, as the specification describes it *)

(** The type expression of the field of a child of a node. *)
Definition field_type (key : string) (value : ConfigValue) : string :=
  match value with
  | VOption o =>
      match configdata.default o with
      | None => "Optional[" ++ get_type_hint (configdata.typ o) ++ "]"
      | Some _ => get_type_hint (configdata.typ o)
      end
  | VDict _ => "_" ++ snake_to_camel key
  end.

Definition node_fields (config : NestedConfig) : list (string * string) :=
  map (fun '(key, value) => (key, field_type key value)) config.

(** The internal nodes at and below a value, in pre-order. *)
Fixpoint internal_nodes_of (value : ConfigValue) : list NestedConfig :=
  match value with
  | VOption _ => []
  | VDict d => d :: flat_map (fun '(_, v) => internal_nodes_of v) d
  end.

Definition internal_nodes (config : NestedConfig) : list NestedConfig :=
  internal_nodes_of (VDict config).

(** The record of each internal node at and below the child [key], in
    pre-order: named after the key, one field per child. *)
Fixpoint nested_records (key : string) (value : ConfigValue) : list EmittedRecord :=
  match value with
  | VOption _ => []
  | VDict d =>
      mkRecord ("_" ++ snake_to_camel key) (node_fields d)
      :: flat_map (fun '(k, v) => nested_records k v) d
  end.

Definition tree_records (class_name : string) (config : NestedConfig)
  : list EmittedRecord :=
  mkRecord class_name (node_fields config)
  :: flat_map (fun '(k, v) => nested_records k v) config.

(** Keys made of characters other than the space, the colon and the double
    quote (every Python identifier is, and the dot is allowed). *)
Fixpoint plain (s : string) : bool :=
  match s with
  | EmptyString => true
  | String c s' => negb (is_delimiter c) && plain s'
  end.

Fixpoint plain_value (value : ConfigValue) : bool :=
  match value with
  | VOption _ => true
  | VDict d => forallb (fun '(k, v) => plain k && plain_value v) d
  end.

Definition plain_config (config : NestedConfig) : bool :=
  plain_value (VDict config).

(** Nothing follows a class body, or what follows is not deeper than [m]. *)
Definition closed_at (m : nat) (rest : list Line) : Prop :=
  match rest with
  | [] => True
  | l :: _ => indent_of l <= m
  end.

(** The lines of the members of a class whose own lines are indented by
    [n] spaces. *)
Definition member_lines (n : nat) (key : string) (value : ConfigValue) : list Line :=
  map read_line (class_member (spaces n) key value).

Definition body_lines (n : nat) (config : NestedConfig) : list Line :=
  flat_map (fun '(key, value) => member_lines n key value) config.

(** What reading the lines of one member gives: its annotation first, then
    lines at least as deep that hold no further field of the class and
    make up the records nested in the member. *)
Definition member_ok (n : nat) (key : string) (value : ConfigValue) : Prop :=
  exists tail,
    member_lines n key value = FieldLine (n + 4) key (field_type key value) :: tail
    /\ Forall (fun l => n + 4 <= indent_of l) tail
    /\ fields_at (n + 4) tail = []
    /\ forall rest,
         closed_at (n + 4) rest ->
         records (tail ++ rest) = (nested_records key value ++ records rest)%list.

Definition body_ok (n : nat) (config : NestedConfig) : Prop :=
  Forall (fun l => n + 4 <= indent_of l) (body_lines n config)
  /\ fields_at (n + 4) (body_lines n config) = node_fields config
  /\ (forall rest,
        closed_at (n + 4) rest -> closed_at (n + 4) (body_lines n config ++ rest))
  /\ forall rest,
       closed_at (n + 4) rest ->
       records (body_lines n config ++ rest)
       = (flat_map (fun '(k, v) => nested_records k v) config ++ records rest)%list.

(** *** The scenario of the specification *)

Definition scenario : list (string * Option) :=
  [("auto_save.session", auto_save_session); ("font.family", font_family)].

Definition scenario_tree : NestedConfig :=
  [("auto_save", VDict [("session", VOption auto_save_session)]);
   ("font", VDict [("family", VOption font_family)])].

Definition scenario_classes : list string :=
  generate_class "ConfigContainer" scenario_tree "" (Some container_doc).

(** *** Order of the children of a node *)

(** The distinct elements of a list in the order of their first
    occurrence. *)
Definition add_new (seen : list string) (x : string) : list string :=
  if existsb (String.eqb x) seen then seen else (seen ++ [x])%list.

Definition first_occurrences (l : list string) : list string :=
  fold_left add_new l [].

(** The first parts of the paths, and what follows the part [part] in the
    paths that start with it. *)
Definition heads (paths : list (list string)) : list string :=
  flat_map (fun p => match p with [] => [] | s :: _ => [s] end) paths.

Definition tails_under (part : string) (paths : list (list string))
  : list (list string) :=
  flat_map
    (fun p =>
       match p with
       | [] => []
       | s :: rest => if String.eqb s part then [rest] else []
       end)
    paths.

(** For each internal node at or below [value], in pre-order, the name
    segments that the input key paths passing through the node have next,
    in the order of their first occurrence. *)
Fixpoint first_occurrence_orders (value : ConfigValue)
    (paths : list (list string)) : list (list string) :=
  match value with
  | VOption _ => []
  | VDict d =>
      first_occurrences (heads paths)
      :: flat_map
           (fun '(k, v) => first_occurrence_orders v (tails_under k paths)) d
  end.

(** Every node of the tree has its children in the first-occurrence order
    of the paths that pass through it. *)
Inductive ordered : NestedConfig -> list (list string) -> Prop :=
| ordered_node d paths :
    py.keys d = first_occurrences (heads paths) ->
    (forall k child, In (k, VDict child) d -> ordered child (tails_under k paths)) ->
    ordered d paths.

Definition field_names (record : EmittedRecord) : list string :=
  map fst (record_fields record).

Definition key_paths (config : list (string * Option)) : list (list string) :=
  map (fun kv => py.split "." (fst kv)) config.

(** *** Further notions: conflicts, nodes and documentation *)

(** The path of the first key is not continued by the path of the
    second. *)
Definition not_extended_by (first second : string * Option) : Prop :=
  ~ extends (py.split "." (fst first)) (py.split "." (fst second)).

(** No dictionary at or below the value is empty. *)
Fixpoint nonempty_nodes (value : ConfigValue) : bool :=
  match value with
  | VOption _ => true
  | VDict d =>
      match d with [] => false | _ :: _ => true end
      && forallb (fun '(_, v) => nonempty_nodes v) d
  end.

(** The classes that [_get_type_hint] tests for before it asks for the
    valid values (lines 39-46). *)
Definition tested_before_valid_values (typ : ConfigType) : bool :=
  match typ with
  | configtypes.List _ _ | configtypes.Dict _ _ _ | configtypes.Bool _ => true
  | _ => false
  end.

(** The last character of a text. *)
Fixpoint last_char (s : string) : option ascii :=
  match s with
  | EmptyString => None
  | String c s' =>
      match s' with
      | EmptyString => Some c
      | String _ _ => last_char s'
      end
  end.

(** *** The pipeline over a heap of objects *)

(** Two runs of the generator share the objects of the schema snapshot
    (the mapping and its options), and each run builds its dictionaries in
    place.  The heap holds the dictionaries and the options; a dictionary
    holds references to them, a reference is the index of the object, and
    a new object gets the next free index.  Strings and the lists of
    emitted items are values. *)
Module heap.

Inductive Object : Type :=
| Dict (entries : list (string * nat))
| Opt (o : Option).

Definition Heap : Type := list Object.

Definition read (h : Heap) (l : nat) : option Object := nth_error h l.

Fixpoint write (h : Heap) (l : nat) (obj : Object) : Heap :=
  match h with
  | [] => []
  | x :: h' =>
      match l with
      | O => obj :: h'
      | S l' => x :: write h' l' obj
      end
  end.

End heap.

(** Lines 31-34 on the heap, [current] being a reference.  The attribute
    [setdefault] is looked up before its argument is evaluated, so the
    dictionary of the argument is allocated at every call on a dictionary,
    also when the key is there already. *)
Fixpoint store_option_in (path : list string) (name : string)
    (value current : nat) (h : heap.Heap) : heap.Heap * py.Result unit :=
  match path with
  | [] =>
      match heap.read h current with
      | Some (heap.Dict entries) =>
          (heap.write h current (heap.Dict (py.set name value entries)), py.Ok tt)
      | _ => (h, py.Raise (py.TypeError no_item_assignment))
      end
  | part :: path' =>
      match heap.read h current with
      | Some (heap.Dict entries) =>
          let fresh := List.length h in
          let h1 := (h ++ [heap.Dict []])%list in
          match py.get part entries with
          | Some child => store_option_in path' name value child h1
          | None =>
              store_option_in path' name value fresh
                (heap.write h1 current (heap.Dict (py.set part fresh entries)))
          end
      | _ => (h, py.Raise (py.AttributeError no_setdefault))
      end
  end.

(** The loop of lines 29-34 over the items of the mapping, [result] being
    the reference of the dictionary of line 28. *)
Fixpoint store_options_in (items : list (string * nat)) (result : nat)
    (h : heap.Heap) : heap.Heap * py.Result unit :=
  match items with
  | [] => (h, py.Ok tt)
  | (key, value) :: rest =>
      let parts := py.split "." key in
      match store_option_in (removelast parts) (last parts "") value result h with
      | (h', py.Ok _) => store_options_in rest result h'
      | (h', py.Raise e) => (h', py.Raise e)
      end
  end.

Definition not_a_mapping : string := "object has no attribute 'items'".

(** [make_nested_config] on the heap: [config] is the reference of the
    input mapping, whose items are read when the loop starts (the loop
    writes to the dictionaries it builds only). *)
Definition make_nested_config_in (config : nat) (h : heap.Heap)
  : heap.Heap * py.Result nat :=
  let result := List.length h in
  let h0 := (h ++ [heap.Dict []])%list in
  match heap.read h0 config with
  | Some (heap.Dict items) =>
      match store_options_in items result h0 with
      | (h1, py.Ok _) => (h1, py.Ok result)
      | (h1, py.Raise e) => (h1, py.Raise e)
      end
  | _ => (h0, py.Raise (py.AttributeError not_a_mapping))
  end.

(** All the results of a list, when every one is there. *)
Fixpoint all_some {A : Type} (l : list (option A)) : option (list A) :=
  match l with
  | [] => Some []
  | None :: _ => None
  | Some x :: l' => option_map (cons x) (all_some l')
  end.

(** [generate_class] reading the nested dictionaries from the heap.  The
    recursion follows references, so it is bounded by [fuel]: [None] when
    the fuel runs out (or a reference leads nowhere). *)
Fixpoint generate_class_in (fuel : nat) (h : heap.Heap) (class_name : string)
    (config : nat) (indent : string) (description : option string)
  : option (list string) :=
  match fuel with
  | O => None
  | S fuel' =>
      match heap.read h config with
      | Some (heap.Dict entries) =>
          option_map
            (fun members =>
               (class_head indent class_name description ++ List.concat members)%list)
            (all_some
               (map
                  (fun '(key, value) =>
                     match heap.read h value with
                     | Some (heap.Opt o) => Some (option_lines indent key o)
                     | Some (heap.Dict _) =>
                         let nested_class_name := "_" ++ snake_to_camel key in
                         option_map
                           (cons (indent ++ "    " ++ key ++ ": " ++ nested_class_name))
                           (generate_class_in fuel' h nested_class_name value
                              (indent ++ "    ") None)
                     | None => None
                     end)
                  entries))
      | _ => None
      end
  end.

(** [generate_config_types] on the heap: the heap the run leaves, and its
    result when the fuel suffices. *)
Definition generate_config_types_in (fuel : nat) (config_data : nat)
    (h : heap.Heap) : heap.Heap * option (py.Result string) :=
  match make_nested_config_in config_data h with
  | (h1, py.Raise e) => (h1, Some (py.Raise e))
  | (h1, py.Ok nested_config) =>
      (h1,
       option_map
         (fun class_def =>
            py.Ok (py.join (py.str py.newline) (preamble ++ class_def)))
         (generate_class_in fuel h1 "ConfigContainer" nested_config ""
            (Some container_doc)))
  end.

(** The mapping that a heap holds at the reference [config]: its keys with
    the options they refer to, in order. *)
Definition snapshot (h : heap.Heap) (config : nat)
  : option (list (string * Option)) :=
  match heap.read h config with
  | Some (heap.Dict items) =>
      all_some
        (map
           (fun '(key, value) =>
              match heap.read h value with
              | Some (heap.Opt o) => Some (key, o)
              | _ => None
              end)
           items)
  | _ => None
  end.

(** A nested dictionary with the references of its objects: what a heap
    holds below a reference. *)
#[warnings="-register-all"]
Inductive Located : Type :=
| LOption (l : nat) (o : Option)
| LDict (l : nat) (children : list (string * Located)).

Definition reference (t : Located) : nat :=
  match t with
  | LOption l _ | LDict l _ => l
  end.

Definition references (children : list (string * Located)) : list (string * nat) :=
  map (fun '(k, c) => (k, reference c)) children.

(** The value a located dictionary stands for. *)
Fixpoint value_of (t : Located) : ConfigValue :=
  match t with
  | LOption _ o => VOption o
  | LDict _ children => VDict (map (fun '(k, c) => (k, value_of c)) children)
  end.

Definition values_of (children : list (string * Located)) : NestedConfig :=
  map (fun '(k, c) => (k, value_of c)) children.

(** The references of its dictionaries, and the objects the heap must
    hold for it. *)
Fixpoint dict_references (t : Located) : list nat :=
  match t with
  | LOption _ _ => []
  | LDict l children => l :: flat_map (fun '(_, c) => dict_references c) children
  end.

Fixpoint objects (t : Located) : list (nat * heap.Object) :=
  match t with
  | LOption l o => [(l, heap.Opt o)]
  | LDict l children =>
      (l, heap.Dict (references children))
      :: flat_map (fun '(_, c) => objects c) children
  end.

Fixpoint height (t : Located) : nat :=
  match t with
  | LOption _ _ => 0
  | LDict _ children => S (list_max (map (fun '(_, c) => height c) children))
  end.

(** An object is placed in the heap where it is said to be: a dictionary
    at or above [base], an option below [base] (the options are those of
    the input). *)
Definition placed (base : nat) (h : heap.Heap) (cell : nat * heap.Object) : Prop :=
  heap.read h (fst cell) = Some (snd cell)
  /\ match snd cell with
     | heap.Dict _ => base <= fst cell
     | heap.Opt _ => fst cell < base
     end.

(** The heap holds the located dictionary: every object is placed and the
    dictionaries are distinct objects. *)
Definition holds (base : nat) (h : heap.Heap) (t : Located) : Prop :=
  Forall (placed base h) (objects t) /\ NoDup (dict_references t).

Definition child_objects (children : list (string * Located))
  : list (nat * heap.Object) :=
  flat_map (fun '(_, c) => objects c) children.

Definition child_dicts (children : list (string * Located)) : list nat :=
  flat_map (fun '(_, c) => dict_references c) children.

(** A dictionary without the first entry of a key. *)
Fixpoint remove_key {A : Type} (k : string) (d : list (string * A))
  : list (string * A) :=
  match d with
  | [] => []
  | (k', v) :: rest =>
      if String.eqb k' k then rest else (k', v) :: remove_key k rest
  end.

(** The items of a mapping on the heap refer to the options of the
    mapping, which lie below [base]. *)
Definition refers_to (base : nat) (h : heap.Heap)
    (items : list (string * nat)) (config : list (string * Option)) : Prop :=
  Forall2
    (fun item kv =>
       fst item = fst kv
       /\ snd item < base
       /\ heap.read h (snd item) = Some (heap.Opt (snd kv)))
    items config.

(** The objects of the scenario: its two options and, at reference 2, the
    mapping. *)
Definition scenario_heap : heap.Heap :=
  [ heap.Opt auto_save_session;
    heap.Opt font_family;
    heap.Dict [("auto_save.session", 0); ("font.family", 1)] ].

(** ** Facts about strings *)

Lemma append_assoc (s1 s2 s3 : string) : (s1 ++ s2) ++ s3 = s1 ++ s2 ++ s3.
Proof. induction s1 as [| c s1 IH]; cbn; [reflexivity | now rewrite IH]. Qed.

Lemma append_nil_r (s : string) : s ++ "" = s.
Proof. induction s as [| c s IH]; cbn; [reflexivity | now rewrite IH]. Qed.

(** ** Properties of the resolver *)

Lemma get_type_hint_eq (typ : ConfigType) :
  get_type_hint typ =
  if configtypes.none_ok typ then "Optional[" ++ _get_type_hint typ ++ "]"
  else _get_type_hint typ.
Proof. reflexivity. Qed.

Lemma _get_type_hint_List a valtype :
  _get_type_hint (configtypes.List a valtype) = "list[" ++ get_type_hint valtype ++ "]".
Proof. reflexivity. Qed.

Lemma _get_type_hint_Dict a keytype valtype :
  _get_type_hint (configtypes.Dict a keytype valtype) =
  "Mapping[" ++ get_type_hint keytype ++ ", " ++ get_type_hint valtype ++ "]".
Proof. reflexivity. Qed.

Lemma kind_string_like (typ : ConfigType) :
  kind_of typ = KStringLike <->
  string_class typ = true /\ configtypes.get_valid_values typ = None.
Proof.
  destruct typ as
    [[n v] ?|[n v] ? ?|[n v]|[n v] ?|[n v]|[n v]|[n v]|[n v]|[n v]|[n v]
    |[n v]|[n v]|[n v]|[n v]|[n v]|[n v]|[n v]|[n v]|[n v]|[n v]|[n v]
    |[n v]|[n v] ? ?|[n v]|[n v]|[n v]];
    cbn; destruct v; cbn; split; intros H; try discriminate;
    try (destruct H; discriminate); auto.
Qed.

(** C3.  A nullable descriptor resolves to the optional wrapper around the
    fully resolved inner expression, whatever its kind; a nullable list of
    integers is [Optional[list[int]]] and not [list[Optional[int]]]. *)
Theorem nullable_wraps_outermost :
  (forall typ : ConfigType,
     configtypes.none_ok typ = true ->
     get_type_hint typ = "Optional[" ++ _get_type_hint typ ++ "]")
  /\ (forall v,
        let typ := configtypes.List (configtypes.mkAttrs true v)
                     (configtypes.Int (configtypes.plain false)) in
        get_type_hint typ = "Optional[list[int]]"
        /\ get_type_hint typ <> "list[Optional[int]]").
Proof.
  split.
  - intros typ Hnull. rewrite get_type_hint_eq, Hnull. reflexivity.
  - intros v typ. split; [reflexivity | discriminate].
Qed.

Lemma nullable_wraps_outermost_witness :
  let typ := configtypes.List (configtypes.plain true)
               (configtypes.Int (configtypes.plain false)) in
  configtypes.none_ok typ = true
  /\ get_type_hint typ = "Optional[" ++ _get_type_hint typ ++ "]".
Proof.
  intros typ. split; [reflexivity |].
  apply (proj1 nullable_wraps_outermost typ). reflexivity.
Defined.

(** C6.  A percentage resolves to [Union[float, int, str]], a
    percentage-or-integer to [Union[int, str]] and a regex to
    [Union[str, re.Pattern[str]]]: the inner resolver returns these for
    every descriptor of the kind, and the resolver returns them unwrapped
    when the descriptor is not nullable. *)
Theorem numeric_and_regex_unions (typ : ConfigType) :
  (kind_of typ = KPercentage ->
     _get_type_hint typ = "Union[float, int, str]"
     /\ (configtypes.none_ok typ = false ->
         get_type_hint typ = "Union[float, int, str]"))
  /\ (kind_of typ = KPercentageOrInteger ->
     _get_type_hint typ = "Union[int, str]"
     /\ (configtypes.none_ok typ = false ->
         get_type_hint typ = "Union[int, str]"))
  /\ (kind_of typ = KRegex ->
     _get_type_hint typ = "Union[str, re.Pattern[str]]"
     /\ (configtypes.none_ok typ = false ->
         get_type_hint typ = "Union[str, re.Pattern[str]]")).
Proof.
  repeat split; intros; rewrite ?get_type_hint_eq; rewrite ?H0;
    destruct typ as
      [[n v] ?|[n v] ? ?|[n v]|[n v] ?|[n v]|[n v]|[n v]|[n v]|[n v]|[n v]
      |[n v]|[n v]|[n v]|[n v]|[n v]|[n v]|[n v]|[n v]|[n v]|[n v]|[n v]
      |[n v]|[n v] ? ?|[n v]|[n v]|[n v]];
    cbn in *; destruct v; cbn in *; try discriminate; reflexivity.
Qed.

Lemma numeric_and_regex_unions_witness :
  get_type_hint (configtypes.Perc (configtypes.plain false)) = "Union[float, int, str]"
  /\ get_type_hint (configtypes.PercOrInt (configtypes.plain false)) = "Union[int, str]"
  /\ get_type_hint (configtypes.Regex (configtypes.plain false))
     = "Union[str, re.Pattern[str]]".
Proof.
  split; [| split].
  - apply (proj1 (numeric_and_regex_unions (configtypes.Perc (configtypes.plain false))));
      reflexivity.
  - apply (proj1 (proj2 (numeric_and_regex_unions
                           (configtypes.PercOrInt (configtypes.plain false)))));
      reflexivity.
  - apply (proj2 (proj2 (numeric_and_regex_unions
                           (configtypes.Regex (configtypes.plain false)))));
      reflexivity.
Defined.

(** C7 (as the code has it).  A descriptor of one of the sixteen
    string-like classes that is not nullable resolves to [str] when it
    reports no valid values; when it reports valid values, the test of
    lines 48-50 comes first and it resolves to the literal union of those
    values. *)
Theorem string_like_resolves_to_str (typ : ConfigType) :
  string_class typ = true ->
  configtypes.none_ok typ = false ->
  (configtypes.get_valid_values typ = None -> get_type_hint typ = "str")
  /\ (forall values,
        configtypes.get_valid_values typ = Some values ->
        get_type_hint typ
        = "Literal[" ++ py.join ", " (map py.repr values) ++ "]").
Proof.
  intros Hclass Hnull. rewrite get_type_hint_eq, Hnull.
  destruct typ as
    [[n v] ?|[n v] ? ?|[n v]|[n v] ?|[n v]|[n v]|[n v]|[n v]|[n v]|[n v]
    |[n v]|[n v]|[n v]|[n v]|[n v]|[n v]|[n v]|[n v]|[n v]|[n v]|[n v]
    |[n v]|[n v] ? ?|[n v]|[n v]|[n v]];
    try discriminate Hclass;
    (split; [intros Hv | intros values Hv]; cbn in Hv; subst v; reflexivity).
Qed.

Lemma string_like_resolves_to_str_witness :
  get_type_hint (configtypes.String (configtypes.plain false)) = "str"
  /\ get_type_hint
       (configtypes.String (configtypes.mkAttrs false (Some ["always"; "never"])))
     = "Literal['always', 'never']".
Proof.
  split.
  - apply (proj1 (string_like_resolves_to_str
                    (configtypes.String (configtypes.plain false))
                    eq_refl eq_refl)).
    reflexivity.
  - apply (proj2 (string_like_resolves_to_str
                    (configtypes.String
                       (configtypes.mkAttrs false (Some ["always"; "never"])))
                    eq_refl eq_refl)
             ["always"; "never"]).
    reflexivity.
Defined.

(** C7 as stated fails: a plain string descriptor and a proxy descriptor
    that report valid values are of string-like classes and not nullable,
    and resolve to a literal union, not to [str]. *)
Lemma string_like_with_valid_values_is_literal :
  let string_type :=
    configtypes.String (configtypes.mkAttrs false (Some ["always"; "never"])) in
  let proxy_type :=
    configtypes.Proxy (configtypes.mkAttrs false (Some ["system"; "none"])) in
  (string_class string_type = true
   /\ configtypes.none_ok string_type = false
   /\ get_type_hint string_type = "Literal['always', 'never']"
   /\ get_type_hint string_type <> "str")
  /\ (string_class proxy_type = true
      /\ configtypes.none_ok proxy_type = false
      /\ get_type_hint proxy_type = "Literal['system', 'none']"
      /\ get_type_hint proxy_type <> "str").
Proof.
  cbv zeta. repeat split; discriminate.
Qed.

(** ** Properties of the emitted fields *)

Lemma class_member_VDict indent key d :
  class_member indent key (VDict d) =
  (indent ++ "    " ++ key ++ ": " ++ "_" ++ snake_to_camel key)
  :: generate_class ("_" ++ snake_to_camel key) d (indent ++ "    ") None.
Proof. reflexivity. Qed.

Lemma generate_class_eq class_name config indent description :
  generate_class class_name config indent description =
  (class_head indent class_name description
   ++ flat_map (fun '(key, value) => class_member indent key value) config)%list.
Proof. reflexivity. Qed.






(** ** Properties of the key tree builder *)

Section DictFacts.
Context {A : Type}.
Implicit Types (d : list (string * A)) (k : string) (v : A).

Lemma get_set_same k v d : py.get k (py.set k v d) = Some v.
Proof.
  induction d as [| [k' v'] d IH]; cbn.
  - now rewrite String.eqb_refl.
  - destruct (String.eqb k' k) eqn:E; cbn.
    + now rewrite String.eqb_refl.
    + now rewrite E.
Qed.

Lemma get_set_other k k' v d : k' <> k -> py.get k' (py.set k v d) = py.get k' d.
Proof.
  intros Hne. induction d as [| [k0 v0] d IH]; cbn.
  - destruct (String.eqb_spec k k'); [congruence | reflexivity].
  - destruct (String.eqb_spec k0 k) as [-> | Hk0]; cbn.
    + destruct (String.eqb_spec k k'); [congruence | reflexivity].
    + destruct (String.eqb_spec k0 k'); [reflexivity | exact IH].
Qed.
End DictFacts.

Lemma split_not_nil sep s : py.split sep s <> [].
Proof.
  destruct s as [| c s]; cbn; [discriminate |].
  destruct (Ascii.eqb c sep); [discriminate |].
  destruct (py.split sep s); discriminate.
Qed.

Lemma parts_removelast_last (parts : list string) :
  parts <> [] -> parts = (removelast parts ++ [last parts ""])%list.
Proof. intros H. now apply app_removelast_last. Qed.

(** Storing an option leaves it on its own path. *)
Lemma store_option_on_path path name value d d' :
  store_option path name value d = py.Ok d' ->
  option_on_path (path ++ [name]) d' = true.
Proof.
  revert d d'. induction path as [| part path IH]; intros d d' Hstore; cbn in *.
  - injection Hstore as <-. now rewrite get_set_same.
  - destruct (match py.get part d with Some v => v | None => VDict [] end)
      as [o | child]; [destruct path; discriminate |].
    destruct (store_option path name value child) as [child' |] eqn:Hchild;
      cbn in Hstore; [| discriminate].
    injection Hstore as <-. rewrite get_set_same. eapply IH, Hchild.
Qed.

(** An option met on a path is still met after any store that succeeds. *)
Lemma store_option_keeps_option q path name value d d' :
  option_on_path q d = true ->
  store_option path name value d = py.Ok d' ->
  option_on_path q d' = true.
Proof.
  revert q d d'. induction path as [| part path IH]; intros q d d' Hq Hstore;
    cbn in Hstore.
  - injection Hstore as <-. destruct q as [| s q]; [discriminate |]. cbn in *.
    destruct (String.eqb_spec s name) as [-> | Hne].
    + now rewrite get_set_same.
    + now rewrite get_set_other.
  - destruct q as [| s q]; [discriminate |]. cbn in Hq |- *.
    destruct (String.eqb_spec s part) as [-> | Hne].
    + destruct (py.get part d) as [[o | child] |]; try discriminate.
      * destruct path; discriminate.
      * destruct (store_option path name value child) as [child' |] eqn:Hchild;
          cbn in Hstore; [| discriminate].
        injection Hstore as <-. rewrite get_set_same. eapply IH; eassumption.
    + destruct (match py.get part d with Some v => v | None => VDict [] end)
        as [o | child]; [destruct path; discriminate |].
      destruct (store_option path name value child) as [child' |];
        cbn in Hstore; [| discriminate].
      injection Hstore as <-. now rewrite get_set_other.
Qed.

Lemma option_on_path_app q r d :
  option_on_path q d = true -> option_on_path (q ++ r) d = true.
Proof.
  revert d. induction q as [| s q IH]; intros d H; [discriminate |].
  cbn in *. destruct (py.get s d) as [[o | child] |]; auto.
Qed.

(** Walking through an option makes the store fail. *)
Lemma store_option_through_option path name value d :
  option_on_path path d = true -> raises (store_option path name value d).
Proof.
  revert d. induction path as [| part path IH]; intros d H; [discriminate |].
  cbn in *. destruct (py.get part d) as [[o | child] |]; try discriminate.
  - destruct path; eexists; split; eauto.
  - destruct (IH child H) as (e & -> & He). exists e. split; [reflexivity | exact He].
Qed.

Lemma store_option_raises path name value d e :
  store_option path name value d = py.Raise e ->
  e = py.TypeError no_item_assignment \/ e = py.AttributeError no_setdefault.
Proof.
  revert d. induction path as [| part path IH]; intros d H; cbn in H;
    [discriminate |].
  destruct (match py.get part d with Some v => v | None => VDict [] end)
    as [o | child].
  - destruct path; injection H as <-; auto.
  - destruct (store_option path name value child) eqn:Hchild; cbn in H;
      [discriminate |].
    injection H as <-. eapply IH, Hchild.
Qed.

Lemma store_options_app items1 items2 d :
  store_options (items1 ++ items2) d =
  (d' <- store_options items1 d ;; store_options items2 d').
Proof.
  revert d. induction items1 as [| [key value] items1 IH]; intros d; cbn;
    [reflexivity |].
  destruct (store_option _ _ value d); cbn; [apply IH | reflexivity].
Qed.

Lemma store_options_raises items d e :
  store_options items d = py.Raise e ->
  e = py.TypeError no_item_assignment \/ e = py.AttributeError no_setdefault.
Proof.
  revert d. induction items as [| [key value] items IH]; intros d H; cbn in H;
    [discriminate |].
  destruct (store_option _ _ value d) eqn:Hstore; cbn in H.
  - eapply IH, H.
  - injection H as <-. eapply store_option_raises, Hstore.
Qed.

Lemma store_options_keeps_option q items d d' :
  option_on_path q d = true ->
  store_options items d = py.Ok d' ->
  option_on_path q d' = true.
Proof.
  revert d. induction items as [| [key value] items IH]; intros d Hq H; cbn in H.
  - now injection H as <-.
  - destruct (store_option _ _ value d) as [d1 |] eqn:Hstore; cbn in H;
      [| discriminate].
    eapply IH; [| exact H]. eapply store_option_keeps_option; eassumption.
Qed.

(** A key stored over a namespace node replaces the node. *)
Lemma store_option_over_dict path name value d c :
  lookup (path ++ [name]) d = Some (VDict c) ->
  exists d',
    store_option path name value d = py.Ok d'
    /\ lookup (path ++ [name]) d' = Some (VOption value).
Proof.
  revert d. induction path as [| part path IH]; intros d H; cbn in *.
  - eexists. split; [reflexivity |]. now rewrite get_set_same.
  - destruct (py.get part d) as [[o | child] |]; try discriminate.
    + destruct (path ++ [name])%list eqn:E; [| discriminate].
      now destruct path.
    + destruct (IH child H) as (child' & -> & Hl). cbn.
      eexists. split; [reflexivity |]. now rewrite get_set_same.
Qed.

(** C1 (as the code has it).  The builder has no conflict check of its
    own.  When a key comes before a key that extends it, the later key
    walks onto the stored option and the builder fails, with the
    [TypeError] or [AttributeError] of the operation tried on the option,
    whose message does not name the key.  When the tree holds a namespace
    node at the path of a later key, that key is accepted and the node is
    replaced by its option. *)
Theorem prefix_conflict_behaviour :
  (forall before k1 v1 between k2 v2 after,
     extends (py.split "." k1) (py.split "." k2) ->
     raises (make_nested_config
               (before ++ (k1, v1) :: between ++ (k2, v2) :: after)))
  /\ (forall config tree key value namespace,
        make_nested_config config = py.Ok tree ->
        lookup (py.split "." key) tree = Some (VDict namespace) ->
        exists tree',
          make_nested_config (config ++ [(key, value)]) = py.Ok tree'
          /\ lookup (py.split "." key) tree' = Some (VOption value)).
Proof.
  split.
  - intros before k1 v1 between k2 v2 after (more & Hmore & Hlong).
    unfold make_nested_config.
    rewrite store_options_app.
    destruct (store_options before []) as [d0 | e] eqn:Hbefore; cbn [py.bind];
      [| exists e; split; [reflexivity | eapply store_options_raises, Hbefore]].
    cbn [store_options].
    destruct (store_option _ _ v1 d0) as [d1 | e] eqn:Hk1; cbn [py.bind];
      [| exists e; split; [reflexivity | eapply store_option_raises, Hk1]].
    apply store_option_on_path in Hk1.
    rewrite <- parts_removelast_last in Hk1 by apply split_not_nil.
    rewrite store_options_app.
    destruct (store_options between d1) as [d2 | e] eqn:Hbetween; cbn [py.bind];
      [| exists e; split; [reflexivity | eapply store_options_raises, Hbetween]].
    cbn [store_options].
    assert (Hblocked : option_on_path (removelast (py.split "." k2)) d2 = true).
    { rewrite Hlong, removelast_app by exact Hmore.
      apply option_on_path_app.
      eapply store_options_keeps_option; eassumption. }
    destruct (store_option_through_option _ (last (py.split "." k2) "") v2 d2 Hblocked)
      as (e & -> & He).
    exists e. split; [reflexivity | exact He].
  - intros config tree key value namespace Hconfig Hns.
    unfold make_nested_config in *.
    rewrite store_options_app, Hconfig. cbn.
    rewrite (parts_removelast_last (py.split "." key)) in Hns at 1
      by apply split_not_nil.
    destruct (store_option_over_dict _ _ value _ _ Hns) as (tree' & -> & Hl).
    exists tree'. split; [reflexivity |].
    rewrite <- parts_removelast_last in Hl by apply split_not_nil. exact Hl.
Qed.

Lemma prefix_conflict_behaviour_witness :
  raises (make_nested_config
            ([] ++ ("net.timeout", auto_save_session)
                :: [] ++ ("net.timeout.retries", font_family) :: []))
  /\ exists tree',
       make_nested_config
         ([("net.timeout.retries", auto_save_session)] ++ [("net.timeout", font_family)])
       = py.Ok tree'
       /\ lookup (py.split "." "net.timeout") tree' = Some (VOption font_family).
Proof.
  split.
  - apply (proj1 prefix_conflict_behaviour [] "net.timeout" auto_save_session []
             "net.timeout.retries" font_family []).
    exists ["retries"]. split; [discriminate | reflexivity].
  - apply (proj2 prefix_conflict_behaviour
             [("net.timeout.retries", auto_save_session)]
             [("net", VDict [("timeout",
                              VDict [("retries", VOption auto_save_session)])])]
             "net.timeout" font_family
             [("retries", VOption auto_save_session)]);
      reflexivity.
Defined.

(** C1 as stated fails: with the longer key first, nothing is raised and
    the namespace node of [net.timeout] is overwritten by the leaf; with
    the leaf first, the failure is a [TypeError] that names no key. *)
Lemma prefix_conflict_not_rejected :
  make_nested_config
    [("net.timeout.retries", auto_save_session); ("net.timeout", font_family)]
  = py.Ok [("net", VDict [("timeout", VOption font_family)])]
  /\ ~ (exists e,
          make_nested_config
            [("net.timeout.retries", auto_save_session); ("net.timeout", font_family)]
          = py.Raise e)
  /\ make_nested_config
       [("net.timeout", font_family); ("net.timeout.retries", auto_save_session)]
     = py.Raise (py.TypeError "'Option' object does not support item assignment").
Proof.
  split; [reflexivity |]. split; [| reflexivity].
  intros (e & He). discriminate He.
Qed.

(** ** The emitted lines, read back *)

Lemma ConfigValue_induction (P : ConfigValue -> Prop) :
  (forall o, P (VOption o)) ->
  (forall d, Forall (fun kv => P (snd kv)) d -> P (VDict d)) ->
  forall value, P value.
Proof.
  intros HO HD. fix IH 1. intros [o | d]; [apply HO | apply HD].
  induction d as [| [k v] d IHd]; constructor; [apply IH | exact IHd].
Qed.

Lemma spaces_app n m : spaces n ++ spaces m = spaces (n + m).
Proof. induction n as [| n IH]; cbn; [reflexivity | now rewrite IH]. Qed.

Lemma indent_deeper n : spaces n ++ "    " = spaces (n + 4).
Proof. apply (spaces_app n 4). Qed.

Lemma leading_spaces_app n s : leading_spaces (spaces n ++ s) = n + leading_spaces s.
Proof. induction n as [| n IH]; cbn; [reflexivity | now rewrite IH]. Qed.

Lemma lstrip_app n s : lstrip (spaces n ++ s) = lstrip s.
Proof. induction n as [| n IH]; cbn; [reflexivity | exact IH]. Qed.

Lemma word_plain w c rest :
  plain w = true -> is_delimiter c = true ->
  word (w ++ String c rest) = (w, Some (c, rest)).
Proof.
  intros Hw Hc. induction w as [| a w IH]; cbn in *.
  - now rewrite Hc.
  - apply andb_prop in Hw as [Ha Hw]. apply negb_true_iff in Ha.
    rewrite Ha, (IH Hw). reflexivity.
Qed.

Lemma plain_no_leading_space w c rest :
  plain w = true -> c <> " "%char ->
  leading_spaces (w ++ String c rest) = 0
  /\ lstrip (w ++ String c rest) = w ++ String c rest.
Proof.
  intros Hw Hc. destruct w as [| a w]; cbn in *.
  - destruct (Ascii.eqb_spec c " "); [contradiction | auto].
  - apply andb_prop in Hw as [Ha _]. apply negb_true_iff in Ha.
    unfold is_delimiter in Ha. apply orb_false_iff in Ha as [Ha _].
    apply orb_false_iff in Ha as [Ha _]. rewrite Ha. auto.
Qed.

Lemma remove_last_app name c : remove_last (name ++ String c "") = name.
Proof.
  induction name as [| a name IH]; [reflexivity |].
  cbn [append remove_last]. rewrite IH.
  destruct name; reflexivity.
Qed.

Lemma read_decorator n : read_line (spaces n ++ "@dataclass") = Decorator n.
Proof.
  unfold read_line. rewrite leading_spaces_app, lstrip_app. cbn.
  now rewrite Nat.add_0_r.
Qed.

Lemma read_class_line n name :
  read_line (spaces n ++ "class " ++ name ++ ":") = ClassLine n name.
Proof.
  unfold read_line. rewrite leading_spaces_app, lstrip_app. cbn.
  now rewrite Nat.add_0_r, remove_last_app.
Qed.

Lemma read_doc_line n text tail :
  read_line (spaces n ++ "    " ++ triple_quote text ++ tail) = DocLine (n + 4).
Proof.
  unfold read_line. rewrite leading_spaces_app, lstrip_app. cbn.
  reflexivity.
Qed.

Lemma read_field_line n key type :
  plain key = true ->
  read_line (spaces n ++ "    " ++ key ++ String ":" (String " " type))
  = FieldLine (n + 4) key type.
Proof.
  intros Hkey. unfold read_line.
  rewrite leading_spaces_app, lstrip_app.
  cbn [append leading_spaces lstrip Ascii.eqb Bool.eqb].
  destruct (plain_no_leading_space key ":" (String " " type) Hkey) as [-> ->];
    [discriminate |].
  rewrite word_plain by (exact Hkey || reflexivity). cbn.
  reflexivity.
Qed.

Lemma closed_at_le m m' rest : m <= m' -> closed_at m rest -> closed_at m' rest.
Proof. destruct rest; cbn; [trivial | lia]. Qed.

Lemma take_while_body n body rest :
  Forall (fun l => n < indent_of l) body ->
  closed_at n rest ->
  take_while (fun l => (n <? indent_of l)%nat) (body ++ rest) = body.
Proof.
  intros Hbody Hrest. induction Hbody as [| l body Hl _ IH]; cbn [app take_while].
  - destruct rest as [| r rest]; [reflexivity |]. cbn [take_while closed_at] in *.
    destruct (Nat.ltb_spec n (indent_of r)); [lia | reflexivity].
  - apply Nat.ltb_lt in Hl. now rewrite Hl, IH.
Qed.

Lemma fields_at_app n body1 body2 :
  fields_at n (body1 ++ body2) = (fields_at n body1 ++ fields_at n body2)%list.
Proof. apply flat_map_app. Qed.

Lemma fields_at_deeper n body :
  Forall (fun l => n < indent_of l) body -> fields_at n body = [].
Proof.
  induction 1 as [| l body Hl _ IH]; [reflexivity |].
  cbn. fold (fields_at n body). rewrite IH.
  destruct l; cbn in *; try reflexivity.
  destruct (Nat.eqb_spec n0 n); [lia | reflexivity].
Qed.

Lemma map_flat_map {A B C : Type} (f : B -> C) (g : A -> list B) (l : list A) :
  map f (flat_map g l) = flat_map (fun x => map f (g x)) l.
Proof.
  induction l as [| x l IH]; cbn; [reflexivity |].
  now rewrite map_app, IH.
Qed.

Lemma body_lines_cons n key value config :
  body_lines n ((key, value) :: config)
  = (member_lines n key value ++ body_lines n config)%list.
Proof. reflexivity. Qed.

Lemma member_lines_option n key o :
  plain key = true ->
  member_lines n key (VOption o)
  = FieldLine (n + 4) key (field_type key (VOption o))
    :: (if String.eqb (configdata.description o) "" then [] else [DocLine (n + 4)]).
Proof.
  intros Hkey. unfold member_lines, class_member, option_lines.
  cbn [map]. f_equal.
  - cbn [field_type]. destruct (configdata.default o);
      exact (read_field_line n key _ Hkey).
  - destruct (String.eqb (configdata.description o) ""); [reflexivity |].
    cbn [map]. now rewrite read_doc_line.
Qed.

Lemma generate_class_lines n class_name config description :
  map read_line (generate_class class_name config (spaces n) description)
  = Decorator n
    :: ClassLine n class_name
    :: (match description with Some _ => [DocLine (n + 4)] | None => [] end
        ++ body_lines n config)%list.
Proof.
  rewrite generate_class_eq. unfold class_head.
  rewrite !map_app, map_flat_map. cbn [map app].
  rewrite read_decorator, read_class_line. do 3 f_equal.
  - destruct description as [text |]; [| reflexivity]. cbn [map].
    pose proof (read_doc_line n text "") as Hdoc.
    rewrite append_nil_r in Hdoc. now rewrite Hdoc.
  - unfold body_lines, member_lines. apply flat_map_ext. now intros [k v].
Qed.

Lemma member_lines_dict n key d :
  plain key = true ->
  member_lines n key (VDict d)
  = FieldLine (n + 4) key (field_type key (VDict d))
    :: Decorator (n + 4)
    :: ClassLine (n + 4) ("_" ++ snake_to_camel key)
    :: body_lines (n + 4) d.
Proof.
  intros Hkey. unfold member_lines.
  rewrite class_member_VDict, indent_deeper. cbn [map].
  rewrite generate_class_lines. f_equal.
  exact (read_field_line n key _ Hkey).
Qed.

Lemma body_ok_of_members n config :
  Forall (fun '(key, value) => member_ok n key value) config -> body_ok n config.
Proof.
  induction 1 as [| [key value] config (tail & Hlines & Hdeep & Hnone & Hrec) _
                    (IHdeep & IHfields & IHclosed & IHrec)].
  - repeat split; cbn; auto.
  - unfold body_ok. rewrite body_lines_cons, Hlines.
    repeat split.
    + constructor; [cbn; lia |]. apply Forall_app. split; assumption.
    + change (FieldLine (n + 4) key (field_type key value) :: tail)
        with ([FieldLine (n + 4) key (field_type key value)] ++ tail)%list.
      rewrite !fields_at_app, Hnone, IHfields. cbn.
      now rewrite Nat.eqb_refl.
    + intros rest _. cbn. lia.
    + intros rest Hrest. cbn [app records].
      rewrite <- app_assoc, Hrec by (apply IHclosed, Hrest).
      rewrite IHrec by exact Hrest. cbn [flat_map]. now rewrite app_assoc.
Qed.

Lemma plain_value_dict d :
  plain_value (VDict d) = true ->
  Forall (fun '(k, v) => plain k = true /\ plain_value v = true) d.
Proof.
  cbn. intros H. apply Forall_forall. intros [k v] Hin.
  rewrite forallb_forall in H. specialize (H _ Hin). cbn in H.
  now apply andb_prop in H.
Qed.

Lemma member_ok_all value :
  forall key n, plain key = true -> plain_value value = true -> member_ok n key value.
Proof.
  induction value as [o | d IH] using ConfigValue_induction; intros key n Hkey Hvalue.
  - eexists. split; [apply member_lines_option, Hkey |].
    destruct (String.eqb (configdata.description o) ""); repeat split; auto.
  - assert (Hbody : body_ok (n + 4) d).
    { apply body_ok_of_members. apply plain_value_dict in Hvalue.
      rewrite Forall_forall in *. intros [k v] Hin.
      specialize (IH _ Hin). specialize (Hvalue _ Hin). cbn in *.
      now apply IH. }
    destruct Hbody as (Hdeep & Hfields & _ & Hrec).
    assert (Hdeeper : Forall (fun l => n + 4 < indent_of l) (body_lines (n + 4) d)).
    { eapply Forall_impl; [| exact Hdeep]. cbn. intros; lia. }
    eexists. split; [apply member_lines_dict, Hkey |]. repeat split.
    + constructor; [cbn; lia |]. constructor; [cbn; lia |].
      eapply Forall_impl; [| exact Hdeep]. cbn. intros; lia.
    + cbn. fold (fields_at (n + 4) (body_lines (n + 4) d)).
      now apply fields_at_deeper.
    + intros rest Hrest. cbn [app records nested_records].
      rewrite take_while_body by assumption.
      rewrite Hfields, Hrec by (eapply closed_at_le; [| exact Hrest]; lia).
      reflexivity.
Qed.

(** Reading the emitted class definitions back gives the record of every
    internal node, in pre-order. *)
Lemma emitted_records_of_tree class_name config description :
  plain_config config = true ->
  emitted_records (generate_class class_name config "" description)
  = tree_records class_name config.
Proof.
  intros Hplain.
  assert (Hbody : body_ok 0 config).
  { apply body_ok_of_members. apply plain_value_dict in Hplain.
    eapply Forall_impl; [| exact Hplain]. intros [k v] [Hk Hv].
    now apply member_ok_all. }
  destruct Hbody as (Hdeep & Hfields & _ & Hrec).
  assert (Hdeeper : Forall (fun l => 0 < indent_of l) (body_lines 0 config)).
  { eapply Forall_impl; [| exact Hdeep]. cbn. intros; lia. }
  specialize (Hrec [] I). rewrite app_nil_r in Hrec. cbn [records] in Hrec.
  rewrite app_nil_r in Hrec.
  unfold emitted_records, tree_records.
  change (generate_class class_name config "" description)
    with (generate_class class_name config (spaces 0) description).
  rewrite generate_class_lines.
  destruct description as [text |]; cbn [app records].
  - change (take_while _ (DocLine (0 + 4) :: body_lines 0 config))
      with (DocLine (0 + 4)
            :: take_while (fun l => (0 <? indent_of l)%nat) (body_lines 0 config)).
    rewrite <- (app_nil_r (body_lines 0 config)) at 1.
    rewrite take_while_body by (assumption || exact I).
    change (fields_at (0 + 4) (DocLine (0 + 4) :: body_lines 0 config))
      with (fields_at (0 + 4) (body_lines 0 config)).
    now rewrite Hfields, Hrec.
  - rewrite <- (app_nil_r (body_lines 0 config)) at 1.
    rewrite take_while_body by (assumption || exact I).
    now rewrite Hfields, Hrec.
Qed.

(** Plain keys make a plain tree. *)
Lemma split_plain sep s :
  plain s = true -> Forall (fun w => plain w = true) (py.split sep s).
Proof.
  induction s as [| c s IH]; intros Hs; cbn in *.
  - repeat constructor.
  - apply andb_prop in Hs as [Hc Hs]. specialize (IH Hs).
    destruct (Ascii.eqb c sep).
    + constructor; [reflexivity | exact IH].
    + destruct (py.split sep s) as [| w ws].
      * repeat constructor. cbn. now rewrite Hc.
      * inversion IH as [| ? ? Hw Hws]; subst.
        constructor; [cbn; now rewrite Hc, Hw | exact Hws].
Qed.

Lemma plain_config_cons k v d :
  plain_config ((k, v) :: d) = plain k && plain_value v && plain_config d.
Proof. reflexivity. Qed.

Lemma plain_set k v d :
  plain k = true -> plain_value v = true -> plain_config d = true ->
  plain_config (py.set k v d) = true.
Proof.
  intros Hk Hv. induction d as [| [k' v'] d IH]; intros Hd; cbn [py.set].
  - rewrite plain_config_cons, Hk, Hv. reflexivity.
  - rewrite plain_config_cons in Hd. apply andb_prop in Hd as [Hkv Hd].
    destruct (String.eqb k' k); rewrite plain_config_cons.
    + now rewrite Hk, Hv, Hd.
    + now rewrite Hkv, IH.
Qed.

Lemma plain_get k d v :
  plain_config d = true -> py.get k d = Some v -> plain_value v = true.
Proof.
  induction d as [| [k' v'] d IH]; intros Hd Hget; cbn in Hget; [discriminate |].
  rewrite plain_config_cons in Hd. apply andb_prop in Hd as [Hkv Hd].
  apply andb_prop in Hkv as [_ Hv'].
  destruct (String.eqb k' k); [now injection Hget as <- | now apply IH].
Qed.

Lemma store_option_plain path name value d d' :
  Forall (fun w => plain w = true) path -> plain name = true ->
  plain_config d = true ->
  store_option path name value d = py.Ok d' ->
  plain_config d' = true.
Proof.
  intros Hpath Hname. revert d d'.
  induction Hpath as [| part path Hpart _ IH]; intros d d' Hd Hstore; cbn in Hstore.
  - injection Hstore as <-. now apply plain_set.
  - destruct (py.get part d) as [[o | child] |] eqn:Hget.
    + destruct path; discriminate.
    + destruct (store_option path name value child) as [child' |] eqn:Hchild;
        cbn in Hstore; [| discriminate].
      injection Hstore as <-. apply plain_set; auto.
      eapply IH; [| exact Hchild]. eapply plain_get; eassumption.
    + destruct (store_option path name value []) as [child' |] eqn:Hchild;
        cbn in Hstore; [| discriminate].
      injection Hstore as <-. apply plain_set; auto.
      eapply IH; [| exact Hchild]. reflexivity.
Qed.

Lemma Forall_removelast {A : Type} (P : A -> Prop) (l : list A) :
  Forall P l -> Forall P (removelast l).
Proof.
  induction 1 as [| x l Hx Hl IH]; cbn; [constructor |].
  destruct l; [constructor | constructor; assumption].
Qed.

Lemma Forall_last {A : Type} (P : A -> Prop) (l : list A) (d : A) :
  l <> [] -> Forall P l -> P (last l d).
Proof.
  intros Hne H. induction H as [| x l Hx Hl IH]; [contradiction |].
  destruct l; [exact Hx | apply IH; discriminate].
Qed.

Lemma store_options_plain items d d' :
  Forall (fun kv => plain (fst kv) = true) items ->
  plain_config d = true ->
  store_options items d = py.Ok d' ->
  plain_config d' = true.
Proof.
  intros Hitems. revert d.
  induction Hitems as [| [key value] items Hkey _ IH]; intros d Hd Hstore;
    cbn in Hstore.
  - now injection Hstore as <-.
  - destruct (store_option _ _ value d) as [d1 |] eqn:H1; cbn in Hstore;
      [| discriminate].
    eapply IH; [| exact Hstore].
    eapply store_option_plain; [| | exact Hd | exact H1].
    + apply Forall_removelast, split_plain, Hkey.
    + apply Forall_last; [apply split_not_nil | apply split_plain, Hkey].
Qed.

Lemma make_nested_config_plain config tree :
  Forall (fun kv => plain (fst kv) = true) config ->
  make_nested_config config = py.Ok tree ->
  plain_config tree = true.
Proof. intros Hkeys. now apply store_options_plain. Qed.

Lemma nested_records_nodes key value :
  map record_fields (nested_records key value)
  = map node_fields (internal_nodes_of value).
Proof.
  revert key. induction value as [o | d IHd] using ConfigValue_induction;
    intros key; [reflexivity |].
  cbn [nested_records internal_nodes_of map record_fields]. f_equal.
  induction IHd as [| [k v] d Hv _ IH]; [reflexivity |].
  cbn [flat_map]. rewrite !map_app, IH. f_equal. apply Hv.
Qed.

Lemma tree_records_nodes class_name config :
  map record_fields (tree_records class_name config)
  = map node_fields (internal_nodes config).
Proof.
  exact (nested_records_nodes class_name (VDict config)).
Qed.

Lemma node_fields_length config : List.length (node_fields config) = List.length config.
Proof. apply length_map. Qed.

Lemma node_fields_keys config : map fst (node_fields config) = py.keys config.
Proof.
  unfold node_fields, py.keys. rewrite map_map. apply map_ext. now intros [k v].
Qed.

Lemma internal_nodes_records class_name config :
  map (fun r => List.length (record_fields r)) (tree_records class_name config)
  = map (@List.length _) (internal_nodes config).
Proof.
  rewrite <- (map_map record_fields (@List.length _)), tree_records_nodes, map_map.
  apply map_ext, node_fields_length.
Qed.

Lemma map_eq_Forall2 {A B C : Type} (f : A -> C) (g : B -> C) l1 l2 :
  map f l1 = map g l2 -> Forall2 (fun a b => f a = g b) l1 l2.
Proof.
  revert l2. induction l1 as [| a l1 IH]; intros [| b l2] H; cbn in H;
    try discriminate; constructor.
  - now injection H.
  - apply IH. now injection H.
Qed.

(** C9.  For a mapping the builder accepts (with plain keys), the records
    read back from the emitted class definitions and the internal nodes of
    the key tree, both in pre-order, correspond one to one: as many
    records as internal nodes, and each record has as many fields as its
    node has children. *)
Theorem records_mirror_internal_nodes config tree :
  Forall (fun kv => plain (fst kv) = true) config ->
  make_nested_config config = py.Ok tree ->
  let emitted :=
    emitted_records (generate_class "ConfigContainer" tree "" (Some container_doc)) in
  List.length emitted = List.length (internal_nodes tree)
  /\ Forall2
       (fun record node =>
          List.length (record_fields record) = List.length node)
       emitted (internal_nodes tree).
Proof.
  intros Hkeys Htree emitted.
  assert (Hforall : Forall2
            (fun record node => List.length (record_fields record) = List.length node)
            emitted (internal_nodes tree)).
  { apply map_eq_Forall2. subst emitted.
    rewrite emitted_records_of_tree
      by (eapply make_nested_config_plain; eassumption).
    apply internal_nodes_records. }
  split; [eapply Forall2_length, Hforall | exact Hforall].
Qed.

(** ** The records of the tree and of the scenario *)

Lemma records_mirror_internal_nodes_witness :
  List.length (emitted_records scenario_classes) = 3
  /\ Forall2
       (fun record node =>
          List.length (record_fields record) = List.length node)
       (emitted_records scenario_classes) (internal_nodes scenario_tree).
Proof.
  apply (records_mirror_internal_nodes scenario scenario_tree).
  - repeat constructor.
  - reflexivity.
Defined.

(** C2 (as the code has it).  For the scenario the generator emits the
    root record [ConfigContainer] with exactly the fields [auto_save] of
    type [_AutoSave] and [font] of type [_Font]; the record [_AutoSave]
    has the field [session] of type [bool] followed by the documentation
    [Save session.]; the record [_Font] has the field [family] of type
    [Optional[str]].  The nested class names carry a leading underscore. *)
Theorem scenario_records :
  make_nested_config scenario = py.Ok scenario_tree
  /\ emitted_records scenario_classes
     = [ mkRecord "ConfigContainer" [("auto_save", "_AutoSave"); ("font", "_Font")];
         mkRecord "_AutoSave" [("session", "bool")];
         mkRecord "_Font" [("family", "Optional[str]")] ]
  /\ scenario_classes
     = [ "@dataclass";
         "class ConfigContainer:";
         "    " ++ triple_quote "Type for the `c` variable in `config.py`.";
         "    auto_save: _AutoSave";
         "    @dataclass";
         "    class _AutoSave:";
         "        session: bool";
         "        " ++ triple_quote "Save session." ++ py.str py.newline;
         "    font: _Font";
         "    @dataclass";
         "    class _Font:";
         "        family: Optional[str]" ].
Proof.
  split; [vm_compute; reflexivity |].
  split; vm_compute; reflexivity.
Qed.

(** C2 as stated fails: no emitted record has a field [auto_save] of type
    [AutoSave] or a field [font] of type [Font], and no emitted record is
    named [AutoSave] or [Font]. *)
Lemma scenario_names_differ :
  make_nested_config scenario = py.Ok scenario_tree
  /\ ~ (exists record,
          In record (emitted_records scenario_classes)
          /\ (In ("auto_save", "AutoSave") (record_fields record)
              \/ In ("font", "Font") (record_fields record)
              \/ record_name record = "AutoSave"
              \/ record_name record = "Font")).
Proof.
  split; [vm_compute; reflexivity |].
  intros (record & Hin & H).
  assert (Hrecords :
            emitted_records scenario_classes
            = [ mkRecord "ConfigContainer" [("auto_save", "_AutoSave"); ("font", "_Font")];
                mkRecord "_AutoSave" [("session", "bool")];
                mkRecord "_Font" [("family", "Optional[str]")] ])
    by (vm_compute; reflexivity).
  rewrite Hrecords in Hin. clear Hrecords.
  destruct Hin as [<- | [<- | [<- | []]]];
    cbn [record_fields record_name In] in H;
    repeat match goal with
           | H : _ \/ _ |- _ => destruct H
           | H : False |- _ => destruct H
           | H : _ = _ |- _ => discriminate H
           end.
Qed.

(** ** Order of the children of a node *)

Lemma first_occurrences_snoc l x :
  first_occurrences (l ++ [x]) = add_new (first_occurrences l) x.
Proof. unfold first_occurrences. now rewrite fold_left_app. Qed.

Lemma existsb_eqb_In x l : existsb (String.eqb x) l = true <-> In x l.
Proof.
  rewrite existsb_exists. split.
  - intros (y & Hin & Heq). apply String.eqb_eq in Heq. now subst.
  - intros Hin. exists x. split; [exact Hin | apply String.eqb_refl].
Qed.

Lemma In_add_new x seen y : In x (add_new seen y) <-> In x seen \/ x = y.
Proof.
  unfold add_new. destruct (existsb (String.eqb y) seen) eqn:E.
  - apply existsb_eqb_In in E. split; [auto | intros [H | ->]; assumption].
  - rewrite in_app_iff. cbn. intuition.
Qed.

Lemma NoDup_add_new seen y : NoDup seen -> NoDup (add_new seen y).
Proof.
  intros Hseen. unfold add_new. destruct (existsb (String.eqb y) seen) eqn:E;
    [exact Hseen |].
  assert (Hnotin : ~ In y seen).
  { intros Hin. apply existsb_eqb_In in Hin. congruence. }
  clear E. induction Hseen as [| a seen Ha _ IH]; cbn.
  - constructor; [intros [] | constructor].
  - constructor.
    + rewrite in_app_iff. cbn. intros [H | [H | []]]; [auto | subst; apply Hnotin; now left].
    + apply IH. intros H. apply Hnotin. now right.
Qed.

Lemma fold_add_new_spec l seen :
  (forall x, In x (fold_left add_new l seen) <-> In x seen \/ In x l)
  /\ (NoDup seen -> NoDup (fold_left add_new l seen)).
Proof.
  revert seen. induction l as [| y l IH]; intros seen; cbn.
  - split; [intuition | auto].
  - destruct (IH (add_new seen y)) as [Hin Hnodup]. split.
    + intros x. rewrite Hin, In_add_new. intuition.
    + intros Hseen. apply Hnodup, NoDup_add_new, Hseen.
Qed.

Lemma In_first_occurrences x l : In x (first_occurrences l) <-> In x l.
Proof.
  unfold first_occurrences. rewrite (proj1 (fold_add_new_spec l [])). cbn. intuition.
Qed.

Lemma NoDup_first_occurrences l : NoDup (first_occurrences l).
Proof. apply (proj2 (fold_add_new_spec l [])). constructor. Qed.

Section DictOrder.
Context {A : Type}.
Implicit Types (d : list (string * A)) (k : string) (v : A).

Lemma keys_set k v d : py.keys (py.set k v d) = add_new (py.keys d) k.
Proof.
  induction d as [| [k' v'] d IH]; [reflexivity |].
  cbn [py.set py.keys map fst]. unfold add_new. cbn [existsb].
  rewrite (String.eqb_sym k k').
  destruct (String.eqb_spec k' k) as [-> | Hne]; cbn [orb map fst];
    [reflexivity |].
  fold (py.keys (py.set k v d)). rewrite IH. unfold add_new.
  fold (py.keys d).
  destruct (existsb (String.eqb k) (py.keys d)); reflexivity.
Qed.

Lemma get_None_keys k d : py.get k d = None -> ~ In k (py.keys d).
Proof.
  induction d as [| [k' v'] d IH]; cbn; [auto |].
  destruct (String.eqb_spec k' k); [discriminate |].
  intros H [Heq | Hin]; [contradiction | now apply IH].
Qed.

Lemma get_Some_In k v d : py.get k d = Some v -> In (k, v) d.
Proof.
  induction d as [| [k' v'] d IH]; cbn; [discriminate |].
  destruct (String.eqb_spec k' k) as [-> | Hne].
  - intros H. injection H as <-. now left.
  - intros H. right. now apply IH.
Qed.

Lemma In_set k v k0 v0 d :
  NoDup (py.keys d) ->
  In (k, v) (py.set k0 v0 d) ->
  (k = k0 /\ v = v0) \/ (k <> k0 /\ In (k, v) d).
Proof.
  induction d as [| [k' v'] d IH]; intros Hnodup Hin; cbn in Hin.
  - destruct Hin as [H | []]. injection H as <- <-. now left.
  - cbn in Hnodup. inversion Hnodup as [| ? ? Hk' Hd]; subst.
    destruct (String.eqb_spec k' k0) as [-> | Hne].
    + destruct Hin as [H | Hin]; [injection H as <- <-; now left |].
      right. split; [| now right].
      intros ->. apply Hk'. apply (in_map fst) in Hin. exact Hin.
    + destruct Hin as [H | Hin].
      * injection H as <- <-. right. split; [exact Hne | now left].
      * destruct (IH Hd Hin) as [H | [H1 H2]]; [now left |].
        right. split; [exact H1 | now right].
Qed.
End DictOrder.

Lemma heads_snoc paths part rest :
  heads (paths ++ [part :: rest]) = (heads paths ++ [part])%list.
Proof. unfold heads. now rewrite flat_map_app. Qed.

Lemma tails_under_snoc_same paths part rest :
  tails_under part (paths ++ [part :: rest]) = (tails_under part paths ++ [rest])%list.
Proof.
  unfold tails_under. rewrite flat_map_app. cbn. now rewrite String.eqb_refl.
Qed.

Lemma tails_under_snoc_other paths k part rest :
  k <> part -> tails_under k (paths ++ [part :: rest]) = tails_under k paths.
Proof.
  intros Hne. unfold tails_under. rewrite flat_map_app. cbn.
  destruct (String.eqb_spec part k); [congruence | now rewrite app_nil_r].
Qed.

Lemma tails_under_absent part paths :
  ~ In part (heads paths) -> tails_under part paths = [].
Proof.
  induction paths as [| [| s rest] paths IH]; intros H; cbn in *; auto.
  destruct (String.eqb_spec s part) as [-> | Hne]; [exfalso; auto |].
  apply IH. intros Hin. apply H. now right.
Qed.

Lemma ordered_empty : ordered [] [].
Proof. constructor; [reflexivity | intros k child []]. Qed.

(** Storing a key keeps every node in first-occurrence order, the key's
    path counted last. *)
Lemma store_option_ordered path name value d d' paths :
  ordered d paths ->
  store_option path name value d = py.Ok d' ->
  ordered d' (paths ++ [path ++ [name]])%list.
Proof.
  revert d d' paths.
  induction path as [| part path IH]; intros d d' paths Hord Hstore;
    inversion Hord as [? ? Hkeys Hchildren]; subst; cbn in Hstore.
  - injection Hstore as <-. constructor.
    + cbn [app]. now rewrite keys_set, heads_snoc, first_occurrences_snoc, Hkeys.
    + intros k child Hin.
      apply In_set in Hin; [| rewrite Hkeys; apply NoDup_first_occurrences].
      destruct Hin as [[_ H] | [Hne Hin]]; [discriminate |].
      cbn [app]. rewrite tails_under_snoc_other by exact Hne. now apply Hchildren.
  - assert (Hchild : forall child child',
               (py.get part d = Some (VDict child)
                \/ (py.get part d = None /\ child = [])) ->
               store_option path name value child = py.Ok child' ->
               ordered (py.set part (VDict child') d)
                 (paths ++ [(part :: path) ++ [name]])%list).
    { intros child child' Hget Hsub. constructor.
      - cbn [app]. now rewrite keys_set, heads_snoc, first_occurrences_snoc, Hkeys.
      - intros k c Hin.
        apply In_set in Hin; [| rewrite Hkeys; apply NoDup_first_occurrences].
        destruct Hin as [[-> H] | [Hne Hin]].
        + injection H as ->. cbn [app]. rewrite tails_under_snoc_same.
          eapply IH; [| exact Hsub].
          destruct Hget as [Hget | [Hget ->]].
          * apply Hchildren. now apply get_Some_In.
          * apply get_None_keys in Hget. rewrite Hkeys, In_first_occurrences in Hget.
            rewrite tails_under_absent by exact Hget. apply ordered_empty.
        + cbn [app]. rewrite tails_under_snoc_other by exact Hne.
          now apply Hchildren. }
    destruct (py.get part d) as [[o | child] |] eqn:Hget.
    + destruct path; discriminate.
    + destruct (store_option path name value child) as [child' |] eqn:Hsub;
        cbn in Hstore; [| discriminate].
      injection Hstore as <-. eapply Hchild; [left; reflexivity | exact Hsub].
    + destruct (store_option path name value []) as [child' |] eqn:Hsub;
        cbn in Hstore; [| discriminate].
      injection Hstore as <-. eapply Hchild; [right; split; reflexivity | exact Hsub].
Qed.

Lemma store_options_ordered items d d' paths :
  ordered d paths ->
  store_options items d = py.Ok d' ->
  ordered d' (paths ++ key_paths items)%list.
Proof.
  revert d paths. induction items as [| [key value] items IH];
    intros d paths Hord Hstore; cbn in Hstore.
  - injection Hstore as <-. cbn. now rewrite app_nil_r.
  - destruct (store_option _ _ value d) as [d1 |] eqn:H1; cbn in Hstore;
      [| discriminate].
    apply (store_option_ordered _ _ _ _ _ paths Hord) in H1.
    rewrite <- parts_removelast_last in H1 by apply split_not_nil.
    specialize (IH _ _ H1 Hstore).
    cbn [key_paths map fst]. rewrite <- app_assoc in IH. exact IH.
Qed.

Lemma ordered_orders value :
  forall paths,
    (forall d, value = VDict d -> ordered d paths) ->
    map py.keys (internal_nodes_of value) = first_occurrence_orders value paths.
Proof.
  induction value as [o | d IHd] using ConfigValue_induction; intros paths Hord;
    [reflexivity |].
  specialize (Hord d eq_refl). inversion Hord as [? ? Hkeys Hchildren]; subst.
  cbn [internal_nodes_of first_occurrence_orders map]. rewrite Hkeys. f_equal.
  clear Hkeys Hord. induction IHd as [| [k v] d Hv _ IH]; [reflexivity |].
  cbn [snd] in Hv. cbn [flat_map]. rewrite map_app. f_equal.
  - apply Hv. intros c ->. apply Hchildren. now left.
  - apply IH. intros k' c Hin. apply Hchildren. now right.
Qed.

Lemma make_nested_config_ordered config tree :
  make_nested_config config = py.Ok tree -> ordered tree (key_paths config).
Proof.
  intros Htree.
  exact (store_options_ordered config [] tree [] ordered_empty Htree).
Qed.

Lemma emitted_field_names config tree class_name description :
  Forall (fun kv => plain (fst kv) = true) config ->
  make_nested_config config = py.Ok tree ->
  map field_names (emitted_records (generate_class class_name tree "" description))
  = first_occurrence_orders (VDict tree) (key_paths config).
Proof.
  intros Hkeys Htree.
  rewrite emitted_records_of_tree by (eapply make_nested_config_plain; eassumption).
  unfold field_names. rewrite <- (map_map record_fields (map fst)).
  rewrite tree_records_nodes, map_map.
  rewrite (map_ext _ py.keys node_fields_keys).
  apply (ordered_orders (VDict tree)). intros d Hd. injection Hd as <-.
  now apply make_nested_config_ordered.
Qed.

(** C4.  For a mapping the builder accepts (with plain keys), the field
    names of every emitted record, taken record by record in pre-order, are
    the name segments that follow the record's node in the input keys, in
    the order of their first occurrence.  For the keys [b.x], [a.y], [b.z]
    the root record has the fields [b], [a] and the record of [b] has the
    fields [x], [z]. *)
Theorem fields_in_first_occurrence_order :
  (forall config tree,
     Forall (fun kv => plain (fst kv) = true) config ->
     make_nested_config config = py.Ok tree ->
     map field_names
       (emitted_records
          (generate_class "ConfigContainer" tree "" (Some container_doc)))
     = first_occurrence_orders (VDict tree) (key_paths config))
  /\ (forall bx ay bz : Option,
        exists tree,
          make_nested_config [("b.x", bx); ("a.y", ay); ("b.z", bz)] = py.Ok tree
          /\ map (fun r => (record_name r, field_names r))
               (emitted_records
                  (generate_class "ConfigContainer" tree "" (Some container_doc)))
             = [("ConfigContainer", ["b"; "a"]); ("_B", ["x"; "z"]); ("_A", ["y"])]).
Proof.
  split.
  - intros config tree Hkeys Htree. now apply emitted_field_names.
  - intros bx ay bz. eexists. split; [reflexivity |].
    rewrite emitted_records_of_tree by reflexivity.
    reflexivity.
Qed.

Lemma fields_in_first_occurrence_order_witness :
  map field_names
    (emitted_records
       (generate_class "ConfigContainer"
          [("b", VDict [("x", VOption auto_save_session); ("z", VOption nullable_url)]);
           ("a", VDict [("y", VOption font_family)])]
          "" (Some container_doc)))
  = [["b"; "a"]; ["x"; "z"]; ["y"]].
Proof.
  rewrite (proj1 fields_in_first_occurrence_order
             [("b.x", auto_save_session); ("a.y", font_family); ("b.z", nullable_url)]).
  - reflexivity.
  - repeat constructor.
  - reflexivity.
Defined.

(** ** Further properties of the key tree builder *)

Lemma option_on_path_nil path : option_on_path path [] = false.
Proof. destruct path; reflexivity. Qed.

(** A store fails only by walking onto an option. *)
Lemma store_option_raise_on_option path name value d e :
  store_option path name value d = py.Raise e -> option_on_path path d = true.
Proof.
  revert d e. induction path as [| part path IH]; intros d e H; cbn in H;
    [discriminate |].
  cbn. destruct (py.get part d) as [[o | child] |]; [reflexivity | |].
  - destruct (store_option path name value child) eqn:Hchild; cbn in H;
      [discriminate |].
    eapply IH, Hchild.
  - destruct (store_option path name value []) eqn:Hchild; cbn in H;
      [discriminate |].
    apply IH in Hchild. now rewrite option_on_path_nil in Hchild.
Qed.

(** The options met on a path after a store were met before it, or the
    path goes through the stored key. *)
Lemma store_option_new_option q path name value d d' :
  store_option path name value d = py.Ok d' ->
  option_on_path q d' = true ->
  option_on_path q d = true \/ exists more, q = ((path ++ [name]) ++ more)%list.
Proof.
  revert q d d'. induction path as [| part path IH]; intros q d d' Hstore Hq;
    cbn in Hstore.
  - injection Hstore as <-. destruct q as [| s q]; [discriminate |]. cbn in Hq.
    destruct (String.eqb_spec s name) as [-> | Hne].
    + right. now exists q.
    + rewrite get_set_other in Hq by exact Hne. now left.
  - destruct q as [| s q]; [discriminate |]. cbn in Hq.
    destruct (String.eqb_spec s part) as [-> | Hne].
    + destruct (py.get part d) as [[o | child] |] eqn:Hget.
      * destruct path; discriminate.
      * destruct (store_option path name value child) as [child' |] eqn:Hchild;
          cbn in Hstore; [| discriminate].
        injection Hstore as <-. rewrite get_set_same in Hq.
        destruct (IH _ _ _ Hchild Hq) as [H | (more & ->)].
        -- left. cbn. now rewrite Hget.
        -- right. now exists more.
      * destruct (store_option path name value []) as [child' |] eqn:Hchild;
          cbn in Hstore; [| discriminate].
        injection Hstore as <-. rewrite get_set_same in Hq.
        destruct (IH _ _ _ Hchild Hq) as [H | (more & ->)].
        -- now rewrite option_on_path_nil in H.
        -- right. now exists more.
    + destruct (match py.get part d with Some v => v | None => VDict [] end)
        as [o | child]; [destruct path; discriminate |].
      destruct (store_option path name value child) as [child' |];
        cbn in Hstore; [| discriminate].
      injection Hstore as <-. rewrite get_set_other in Hq by exact Hne.
      left. exact Hq.
Qed.

Lemma store_options_accepts items :
  forall done d,
    (forall q, option_on_path q d = true ->
               exists k more, In k done /\ q = (py.split "." k ++ more)%list) ->
    Forall (fun kv => forall k, In k done ->
                                ~ extends (py.split "." k) (py.split "." (fst kv)))
      items ->
    ForallOrdPairs not_extended_by items ->
    exists tree, store_options items d = py.Ok tree.
Proof.
  induction items as [| [key value] items IH]; intros done d Hinv Hdone Hpairs.
  - now exists d.
  - inversion Hdone as [| ? ? Hkey Hrest]; subst.
    inversion Hpairs as [| ? ? Hafter Hpairs']; subst.
    cbn [store_options fst] in *.
    destruct (store_option _ _ value d) as [d1 | e] eqn:Hstore; cbn [py.bind].
    + apply (IH (key :: done) d1).
      * intros q Hq.
        destruct (store_option_new_option _ _ _ _ _ _ Hstore Hq)
          as [H | (more & ->)].
        -- destruct (Hinv _ H) as (k & more & Hk & ->).
           exists k, more. split; [now right | reflexivity].
        -- exists key, more. split; [now left |].
           now rewrite <- parts_removelast_last by apply split_not_nil.
      * rewrite Forall_forall in *. intros kv Hin k [<- | Hk].
        -- apply (Hafter kv Hin).
        -- now apply (Hrest kv Hin).
      * exact Hpairs'.
    + exfalso. apply store_option_raise_on_option in Hstore.
      destruct (Hinv _ Hstore) as (k & more & Hk & Hq).
      apply (Hkey k Hk). exists (more ++ [last (py.split "." key) ""])%list.
      split; [now destruct more |].
      rewrite app_assoc, <- Hq. apply parts_removelast_last, split_not_nil.
Qed.

(** X1.  A mapping in which no key comes before a key that extends it is
    accepted: the builder returns a tree and the generator a text. *)
Theorem accepted_without_extension (config_data : list (string * Option)) :
  ForallOrdPairs not_extended_by config_data ->
  exists tree text,
    make_nested_config config_data = py.Ok tree
    /\ generate_config_types config_data = py.Ok text.
Proof.
  intros Hpairs.
  destruct (store_options_accepts config_data [] []) as (tree & Htree).
  - intros q Hq. now rewrite option_on_path_nil in Hq.
  - apply Forall_forall. intros kv _ k [].
  - exact Hpairs.
  - exists tree. unfold generate_config_types, make_nested_config.
    rewrite Htree. cbn [py.bind]. eexists. split; reflexivity.
Qed.

Lemma accepted_without_extension_witness :
  exists tree text,
    make_nested_config scenario = py.Ok tree
    /\ generate_config_types scenario = py.Ok text.
Proof.
  apply (accepted_without_extension scenario).
  repeat constructor. intros (more & _ & H). discriminate H.
Defined.

Lemma lookup_option_on_path path d o :
  lookup path d = Some (VOption o) -> option_on_path path d = true.
Proof.
  revert d. induction path as [| part path IH]; intros d H; [discriminate |].
  cbn in *. destruct (py.get part d) as [[o' | child] |]; auto. discriminate.
Qed.

Lemma lookup_nil_option path o : lookup path [] <> Some (VOption o).
Proof. destruct path; discriminate. Qed.

Lemma store_option_lookup_same path name value d d' :
  store_option path name value d = py.Ok d' ->
  lookup (path ++ [name]) d' = Some (VOption value).
Proof.
  revert d d'. induction path as [| part path IH]; intros d d' Hstore; cbn in *.
  - injection Hstore as <-. now rewrite get_set_same.
  - destruct (match py.get part d with Some v => v | None => VDict [] end)
      as [o | child]; [destruct path; discriminate |].
    destruct (store_option path name value child) as [child' |] eqn:Hchild;
      cbn in Hstore; [| discriminate].
    injection Hstore as <-. rewrite get_set_same. eapply IH, Hchild.
Qed.

(** A store leaves in place the options whose path it does not reach. *)
Lemma store_option_lookup_other p o path name value d d' :
  store_option path name value d = py.Ok d' ->
  lookup p d = Some (VOption o) ->
  (forall more, p <> ((path ++ [name]) ++ more)%list) ->
  lookup p d' = Some (VOption o).
Proof.
  revert p d d'. induction path as [| part path IH]; intros p d d' Hstore Hp Hne;
    cbn in Hstore.
  - injection Hstore as <-. destruct p as [| s p]; [discriminate |]. cbn in *.
    destruct (String.eqb_spec s name) as [-> | Hs].
    + exfalso. now apply (Hne p).
    + now rewrite get_set_other.
  - destruct p as [| s p]; [discriminate |]. cbn in Hp |- *.
    destruct (String.eqb_spec s part) as [-> | Hs].
    + destruct (py.get part d) as [[o' | child] |] eqn:Hget; try discriminate.
      * destruct path; discriminate.
      * destruct (store_option path name value child) as [child' |] eqn:Hchild;
          cbn in Hstore; [| discriminate].
        injection Hstore as <-. rewrite get_set_same.
        eapply IH; [exact Hchild | exact Hp |].
        intros more ->. now apply (Hne more).
    + destruct (match py.get part d with Some v => v | None => VDict [] end)
        as [o' | child]; [destruct path; discriminate |].
      destruct (store_option path name value child) as [child' |];
        cbn in Hstore; [| discriminate].
      injection Hstore as <-. now rewrite get_set_other.
Qed.

(** An option found after a store is the stored one, at its path, or was
    there before. *)
Lemma store_option_lookup_inv p o path name value d d' :
  store_option path name value d = py.Ok d' ->
  lookup p d' = Some (VOption o) ->
  (p = (path ++ [name])%list /\ o = value) \/ lookup p d = Some (VOption o).
Proof.
  revert p d d'. induction path as [| part path IH]; intros p d d' Hstore Hp;
    cbn in Hstore.
  - injection Hstore as <-. destruct p as [| s p]; [discriminate |]. cbn in *.
    destruct (String.eqb_spec s name) as [-> | Hs].
    + rewrite get_set_same in Hp. destruct p; [| discriminate].
      injection Hp as <-. now left.
    + rewrite get_set_other in Hp by exact Hs. now right.
  - destruct p as [| s p]; [discriminate |]. cbn in Hp |- *.
    destruct (String.eqb_spec s part) as [-> | Hs].
    + destruct (py.get part d) as [[o' | child] |] eqn:Hget.
      * destruct path; discriminate.
      * destruct (store_option path name value child) as [child' |] eqn:Hchild;
          cbn in Hstore; [| discriminate].
        injection Hstore as <-. rewrite get_set_same in Hp.
        destruct (IH _ _ _ Hchild Hp) as [[-> ->] | H]; [now left | now right].
      * destruct (store_option path name value []) as [child' |] eqn:Hchild;
          cbn in Hstore; [| discriminate].
        injection Hstore as <-. rewrite get_set_same in Hp.
        destruct (IH _ _ _ Hchild Hp) as [[-> ->] | H]; [now left |].
        now apply lookup_nil_option in H.
    + destruct (match py.get part d with Some v => v | None => VDict [] end)
        as [o' | child]; [destruct path; discriminate |].
      destruct (store_option path name value child) as [child' |];
        cbn in Hstore; [| discriminate].
      injection Hstore as <-. rewrite get_set_other in Hp by exact Hs. now right.
Qed.

Lemma store_options_lookup_kept p o items :
  forall d d',
    store_options items d = py.Ok d' ->
    lookup p d = Some (VOption o) ->
    Forall (fun kv => forall more, p <> (py.split "." (fst kv) ++ more)%list) items ->
    lookup p d' = Some (VOption o).
Proof.
  induction items as [| [key value] items IH]; intros d d' Hstore Hp Hitems;
    cbn in Hstore.
  - now injection Hstore as <-.
  - inversion Hitems as [| ? ? Hkey Hrest]; subst. cbn [fst] in Hkey.
    destruct (store_option _ _ value d) as [d1 |] eqn:H1; cbn in Hstore;
      [| discriminate].
    eapply IH; [exact Hstore | | exact Hrest].
    eapply store_option_lookup_other; [exact H1 | exact Hp |].
    now rewrite <- parts_removelast_last by apply split_not_nil.
Qed.

(** X2.  In an accepted mapping, an option is found in the tree at the
    path of its key, unless a later key has that path or a beginning of
    it (such a key replaces the node on the way). *)
Theorem stored_option_is_found before key value after tree :
  make_nested_config (before ++ (key, value) :: after) = py.Ok tree ->
  Forall
    (fun later =>
       forall more, py.split "." key <> (py.split "." (fst later) ++ more)%list)
    after ->
  lookup (py.split "." key) tree = Some (VOption value).
Proof.
  unfold make_nested_config. intros Htree Hafter.
  rewrite store_options_app in Htree.
  destruct (store_options before []) as [d0 |]; cbn [py.bind] in Htree;
    [| discriminate].
  cbn [store_options] in Htree.
  destruct (store_option _ _ value d0) as [d1 |] eqn:H1; cbn [py.bind] in Htree;
    [| discriminate].
  apply store_option_lookup_same in H1.
  rewrite <- parts_removelast_last in H1 by apply split_not_nil.
  eapply store_options_lookup_kept; eassumption.
Qed.

Lemma stored_option_is_found_witness :
  lookup (py.split "." "auto_save.session") scenario_tree
  = Some (VOption auto_save_session).
Proof.
  apply (stored_option_is_found [] "auto_save.session" auto_save_session
           [("font.family", font_family)] scenario_tree).
  - reflexivity.
  - repeat constructor. intros more H. discriminate H.
Defined.

Lemma store_options_lookup_inv p o items :
  forall d d',
    store_options items d = py.Ok d' ->
    lookup p d' = Some (VOption o) ->
    lookup p d = Some (VOption o)
    \/ exists key, In (key, o) items /\ py.split "." key = p.
Proof.
  induction items as [| [key value] items IH]; intros d d' Hstore Hp;
    cbn in Hstore.
  - injection Hstore as <-. now left.
  - destruct (store_option _ _ value d) as [d1 |] eqn:H1; cbn in Hstore;
      [| discriminate].
    destruct (IH _ _ Hstore Hp) as [H | (k & Hin & Hk)].
    + destruct (store_option_lookup_inv _ _ _ _ _ _ _ H1 H) as [[Heq ->] | H'];
        [| now left].
      right. exists key. split; [now left |].
      rewrite Heq. apply parts_removelast_last, split_not_nil.
    + right. exists k. split; [now right | exact Hk].
Qed.

Lemma join_split sep s : py.join (py.str sep) (py.split sep s) = s.
Proof.
  unfold py.join. induction s as [| c s IH]; [reflexivity |].
  cbn [py.split]. destruct (Ascii.eqb_spec c sep) as [-> | Hne].
  - pose proof (split_not_nil sep s) as Hnil.
    destruct (py.split sep s) as [| w ws]; [contradiction |].
    cbn [String.concat] in *. now rewrite IH.
  - pose proof (split_not_nil sep s) as Hnil.
    destruct (py.split sep s) as [| w ws]; [contradiction |].
    cbn [String.concat] in *. destruct ws; cbn [append]; now rewrite <- IH.
Qed.

(** X3.  Every option of the tree is the option of an input key, and the
    key is the path to the option joined with dots: the builder invents
    no option and moves none. *)
Theorem tree_options_come_from_keys config tree path o :
  make_nested_config config = py.Ok tree ->
  lookup path tree = Some (VOption o) ->
  In (py.join "." path, o) config /\ py.split "." (py.join "." path) = path.
Proof.
  intros Htree Hpath.
  destruct (store_options_lookup_inv _ _ _ _ _ Htree Hpath) as [H | (key & Hin & <-)].
  - now apply lookup_nil_option in H.
  - pose proof (join_split "." key) as Hjoin. unfold py.str in Hjoin.
    rewrite Hjoin. split; [exact Hin | reflexivity].
Qed.

Lemma tree_options_come_from_keys_witness :
  In (py.join "." ["font"; "family"], font_family) scenario
  /\ py.split "." (py.join "." ["font"; "family"]) = ["font"; "family"].
Proof.
  apply (tree_options_come_from_keys scenario scenario_tree); reflexivity.
Defined.

Lemma nonempty_children_set k v (d : NestedConfig) :
  nonempty_nodes v = true ->
  forallb (fun '(_, v) => nonempty_nodes v) d = true ->
  forallb (fun '(_, v) => nonempty_nodes v) (py.set k v d) = true.
Proof.
  intros Hv. induction d as [| [k' v'] d IH]; intros Hd; cbn in *.
  - now rewrite Hv.
  - apply andb_prop in Hd as [Hv' Hd].
    destruct (String.eqb k' k); cbn; [now rewrite Hv, Hd | now rewrite Hv', IH].
Qed.

Lemma nonempty_children_get k (d : NestedConfig) v :
  forallb (fun '(_, v) => nonempty_nodes v) d = true ->
  py.get k d = Some v -> nonempty_nodes v = true.
Proof.
  induction d as [| [k' v'] d IH]; intros Hd Hget; cbn in *; [discriminate |].
  apply andb_prop in Hd as [Hv' Hd].
  destruct (String.eqb k' k); [now injection Hget as <- | now apply IH].
Qed.

Lemma set_not_nil {A : Type} k (v : A) d : py.set k v d <> [].
Proof. destruct d as [| [k' v'] d]; cbn; [| destruct (String.eqb k' k)]; discriminate. Qed.

Lemma store_option_nonempty path name value d d' :
  forallb (fun '(_, v) => nonempty_nodes v) d = true ->
  store_option path name value d = py.Ok d' ->
  nonempty_nodes (VDict d') = true.
Proof.
  revert d d'. induction path as [| part path IH]; intros d d' Hd Hstore;
    cbn in Hstore.
  - injection Hstore as <-. cbn [nonempty_nodes].
    rewrite nonempty_children_set by auto.
    pose proof (set_not_nil name (VOption value) d).
    now destruct (py.set name (VOption value) d).
  - assert (Hsub : forall child child',
               forallb (fun '(_, v) => nonempty_nodes v) child = true ->
               store_option path name value child = py.Ok child' ->
               nonempty_nodes (VDict (py.set part (VDict child') d)) = true).
    { intros child child' Hchild Hsub. cbn [nonempty_nodes].
      rewrite nonempty_children_set; [| eapply IH; eassumption | exact Hd].
      pose proof (set_not_nil part (VDict child') d).
      now destruct (py.set part (VDict child') d). }
    destruct (py.get part d) as [[o | child] |] eqn:Hget.
    + destruct path; discriminate.
    + destruct (store_option path name value child) as [child' |] eqn:Hchild;
        cbn in Hstore; [| discriminate].
      injection Hstore as <-. eapply Hsub; [| exact Hchild].
      pose proof (nonempty_children_get _ _ _ Hd Hget) as H. cbn in H.
      now apply andb_prop in H.
    + destruct (store_option path name value []) as [child' |] eqn:Hchild;
        cbn in Hstore; [| discriminate].
      injection Hstore as <-. eapply Hsub; [| exact Hchild]. reflexivity.
Qed.

Lemma store_options_nonempty items :
  forall d d',
    forallb (fun '(_, v) => nonempty_nodes v) d = true ->
    store_options items d = py.Ok d' ->
    forallb (fun '(_, v) => nonempty_nodes v) d' = true.
Proof.
  induction items as [| [key value] items IH]; intros d d' Hd Hstore;
    cbn in Hstore.
  - now injection Hstore as <-.
  - destruct (store_option _ _ value d) as [d1 |] eqn:H1; cbn in Hstore;
      [| discriminate].
    eapply IH; [| exact Hstore].
    apply store_option_nonempty in H1; [| exact Hd]. cbn in H1.
    now apply andb_prop in H1.
Qed.

Lemma nonempty_nodes_internal value :
  nonempty_nodes value = true ->
  Forall (fun node => node <> []) (internal_nodes_of value).
Proof.
  induction value as [o | d IH] using ConfigValue_induction; intros H;
    [constructor |].
  cbn in H. apply andb_prop in H as [Hd Hchildren].
  cbn [internal_nodes_of]. constructor; [now destruct d |].
  clear Hd. induction IH as [| [k v] d Hv _ IHd]; [constructor |].
  cbn in Hchildren. apply andb_prop in Hchildren as [Hv' Hchildren].
  cbn [flat_map]. apply Forall_app. split; [now apply Hv | now apply IHd].
Qed.

(** X4.  In the tree of an accepted mapping no internal node below the
    root is empty: every nested class gets at least one field.  The root
    is empty only for the empty mapping. *)
Theorem nested_nodes_are_not_empty config tree :
  make_nested_config config = py.Ok tree ->
  Forall (fun node => node <> []) (tl (internal_nodes tree))
  /\ (tree = [] -> config = []).
Proof.
  intros Htree. split.
  - assert (H : forallb (fun '(_, v) => nonempty_nodes v) tree = true)
      by (eapply store_options_nonempty; [| exact Htree]; reflexivity).
    unfold internal_nodes. cbn [internal_nodes_of tl].
    clear Htree. induction tree as [| [k v] tree IH]; [constructor |].
    cbn in H. apply andb_prop in H as [Hv H].
    cbn [flat_map]. apply Forall_app. split; [| now apply IH].
    now apply nonempty_nodes_internal.
  - intros ->. destruct config as [| [key value] config]; [reflexivity |].
    exfalso. unfold make_nested_config in Htree. cbn [store_options] in Htree.
    destruct (store_option _ _ value []) as [d1 |] eqn:H1; cbn [py.bind] in Htree;
      [| discriminate].
    apply store_option_on_path in H1.
    assert (Hkept : option_on_path
                      (removelast (py.split "." key) ++ [last (py.split "." key) ""])
                      [] = true)
      by (eapply store_options_keeps_option; eassumption).
    now rewrite option_on_path_nil in Hkept.
Qed.

Lemma nested_nodes_are_not_empty_witness :
  Forall (fun node : NestedConfig => node <> []) (tl (internal_nodes scenario_tree))
  /\ (scenario_tree = [] -> scenario = []).
Proof.
  apply (nested_nodes_are_not_empty scenario scenario_tree). reflexivity.
Defined.

Lemma first_occurrence_orders_NoDup value :
  forall paths, Forall (@NoDup string) (first_occurrence_orders value paths).
Proof.
  induction value as [o | d IH] using ConfigValue_induction; intros paths;
    [constructor |].
  cbn [first_occurrence_orders]. constructor; [apply NoDup_first_occurrences |].
  induction IH as [| [k v] d Hv _ IHd]; [constructor |].
  cbn [flat_map]. apply Forall_app. split; [apply Hv | exact IHd].
Qed.

(** X5.  In the class definitions emitted for an accepted mapping (with
    plain keys) no record has two fields of the same name. *)
Theorem field_names_are_distinct config tree class_name description :
  Forall (fun kv => plain (fst kv) = true) config ->
  make_nested_config config = py.Ok tree ->
  Forall (fun record => NoDup (field_names record))
    (emitted_records (generate_class class_name tree "" description)).
Proof.
  intros Hkeys Htree.
  pose proof (emitted_field_names config tree class_name description Hkeys Htree)
    as Hnames.
  pose proof (first_occurrence_orders_NoDup (VDict tree) (key_paths config)) as Hnodup.
  rewrite <- Hnames in Hnodup. rewrite Forall_forall in *.
  intros record Hin. apply Hnodup. now apply in_map.
Qed.

Lemma field_names_are_distinct_witness :
  Forall (fun record => NoDup (field_names record))
    (emitted_records scenario_classes).
Proof.
  apply (field_names_are_distinct scenario scenario_tree).
  - repeat constructor.
  - reflexivity.
Defined.

(** X6.  Reading the class definitions emitted for an accepted mapping
    (with plain keys) gives back the key tree: one record per internal
    node in pre-order, named [ConfigContainer] at the root and after the
    key below it, with one field per child, in order, of the child's
    type. *)
Theorem emitted_classes_read_back config tree :
  Forall (fun kv => plain (fst kv) = true) config ->
  make_nested_config config = py.Ok tree ->
  emitted_records (generate_class "ConfigContainer" tree "" (Some container_doc))
  = tree_records "ConfigContainer" tree.
Proof.
  intros Hkeys Htree. apply emitted_records_of_tree.
  eapply make_nested_config_plain; eassumption.
Qed.

Lemma emitted_classes_read_back_witness :
  emitted_records scenario_classes = tree_records "ConfigContainer" scenario_tree.
Proof.
  apply (emitted_classes_read_back scenario scenario_tree).
  - repeat constructor.
  - reflexivity.
Defined.

(** ** Keys and their paths *)

Lemma split_parts_no_sep sep s :
  Forall (fun w => py.contains_char sep w = false) (py.split sep s).
Proof.
  induction s as [| c s IH]; cbn; [repeat constructor |].
  destruct (Ascii.eqb c sep) eqn:E.
  - constructor; [reflexivity | exact IH].
  - destruct (py.split sep s) as [| w ws]; [repeat constructor; cbn; now rewrite E |].
    inversion IH as [| ? ? Hw Hws]; subst. constructor; [| exact Hws].
    cbn. now rewrite E, Hw.
Qed.

Lemma split_without_sep sep s :
  py.contains_char sep s = false -> py.split sep s = [s].
Proof.
  induction s as [| c s IH]; intros H; [reflexivity |].
  cbn in *. apply orb_false_iff in H as [Hc Hs]. now rewrite Hc, (IH Hs).
Qed.

Lemma split_with_sep sep s :
  py.contains_char sep s = true -> 1 < List.length (py.split sep s).
Proof.
  induction s as [| c s IH]; intros H; [discriminate |].
  cbn in *. pose proof (split_not_nil sep s) as Hnil.
  destruct (Ascii.eqb c sep); cbn in H.
  - destruct (py.split sep s); [contradiction | cbn; lia].
  - specialize (IH H). destruct (py.split sep s); [contradiction | exact IH].
Qed.

Lemma split_app_sep sep a b :
  py.split sep (a ++ String sep b) = (py.split sep a ++ py.split sep b)%list.
Proof.
  induction a as [| c a IH]; cbn.
  - now rewrite Ascii.eqb_refl.
  - rewrite IH. destruct (Ascii.eqb c sep); [reflexivity |].
    pose proof (split_not_nil sep a) as Hnil.
    destruct (py.split sep a); [contradiction | reflexivity].
Qed.

(** X7.  The path of a key (line 30) has at least one part, no part holds
    a dot, and the parts joined with dots are the key: two different keys
    never have the same path. *)
Theorem key_paths_are_faithful :
  (forall key,
     py.split "." key <> []
     /\ Forall (fun part => py.contains_char "." part = false) (py.split "." key)
     /\ py.join "." (py.split "." key) = key)
  /\ (forall key1 key2, py.split "." key1 = py.split "." key2 -> key1 = key2).
Proof.
  assert (Hjoin : forall key, py.join "." (py.split "." key) = key).
  { intros key. pose proof (join_split "." key) as H. exact H. }
  split.
  - intros key. split; [apply split_not_nil |].
    split; [apply split_parts_no_sep | apply Hjoin].
  - intros key1 key2 H. rewrite <- (Hjoin key1), <- (Hjoin key2). now rewrite H.
Qed.

(** ** Class names *)

Lemma concat_empty_cons x l : String.concat "" (x :: l) = x ++ String.concat "" l.
Proof. destruct l; cbn; [now rewrite append_nil_r | reflexivity]. Qed.

Lemma concat_empty_app l1 l2 :
  String.concat "" (l1 ++ l2) = String.concat "" l1 ++ String.concat "" l2.
Proof.
  induction l1 as [| x l1 IH]; [reflexivity |].
  cbn [app]. now rewrite !concat_empty_cons, IH, append_assoc.
Qed.

Lemma snake_to_camel_app a b :
  snake_to_camel (a ++ "_" ++ b) = snake_to_camel a ++ snake_to_camel b.
Proof.
  unfold snake_to_camel, py.join. cbn [append].
  now rewrite split_app_sep, map_app, concat_empty_app.
Qed.

(** X8.  [snake_to_camel] turns an underscore between two names into the
    concatenation of their camel forms.  An empty word between two
    underscores adds nothing, so the sibling keys [a_b] and [a__b] get the
    same class name. *)
Theorem snake_to_camel_joins_words :
  (forall a b,
     snake_to_camel (a ++ "_" ++ b) = snake_to_camel a ++ snake_to_camel b)
  /\ (forall a b, snake_to_camel (a ++ "__" ++ b) = snake_to_camel (a ++ "_" ++ b)).
Proof.
  split; [exact snake_to_camel_app |].
  intros a b. change (a ++ "__" ++ b) with (a ++ "_" ++ ("" ++ "_" ++ b)).
  now rewrite !snake_to_camel_app.
Qed.

Lemma upper_underscore c : Ascii.eqb (py.upper c) "_" = Ascii.eqb c "_".
Proof. destruct c as [[] [] [] [] [] [] [] []]; reflexivity. Qed.

Lemma lower_underscore c : Ascii.eqb (py.lower c) "_" = Ascii.eqb c "_".
Proof. destruct c as [[] [] [] [] [] [] [] []]; reflexivity. Qed.

Lemma contains_char_app c a b :
  py.contains_char c (a ++ b) = py.contains_char c a || py.contains_char c b.
Proof.
  induction a as [| x a IH]; cbn; [reflexivity |].
  now rewrite IH, orb_assoc.
Qed.

Lemma capitalize_underscore w :
  py.contains_char "_" (py.capitalize w) = py.contains_char "_" w.
Proof.
  destruct w as [| c w]; [reflexivity |]. cbn.
  rewrite upper_underscore. f_equal.
  induction w as [| x w IH]; cbn; [reflexivity |].
  now rewrite lower_underscore, IH.
Qed.

(** X9.  The camel form of a name holds no underscore: the name of a
    nested class has the leading underscore of line 183 and no other. *)
Theorem camel_has_no_underscore name :
  py.contains_char "_" (snake_to_camel name) = false.
Proof.
  unfold snake_to_camel, py.join.
  pose proof (split_parts_no_sep "_" name) as Hparts.
  induction Hparts as [| w ws Hw _ IH]; [reflexivity |].
  cbn [map]. rewrite concat_empty_cons, contains_char_app.
  now rewrite capitalize_underscore, Hw, IH.
Qed.

(** ** Further properties of the resolver *)

Lemma prefix_empty s : String.prefix "" s = true.
Proof. now destruct s. Qed.

(** X10.  The hint of a descriptor starts with [Optional[] exactly when
    the descriptor is nullable: the inner resolver never yields an
    optional by itself, whatever the class and the valid values. *)
Theorem optional_marks_nullable (typ : ConfigType) :
  String.prefix "Optional[" (get_type_hint typ) = configtypes.none_ok typ
  /\ String.prefix "Optional[" (_get_type_hint typ) = false.
Proof.
  assert (Hinner : String.prefix "Optional[" (_get_type_hint typ) = false).
  { destruct typ as
      [[n v] ?|[n v] ? ?|[n v]|[n v] ?|[n v]|[n v]|[n v]|[n v]|[n v]|[n v]
      |[n v]|[n v]|[n v]|[n v]|[n v]|[n v]|[n v]|[n v]|[n v]|[n v]|[n v]
      |[n v]|[n v] ? ?|[n v]|[n v]|[n v]];
      try reflexivity; destruct v; reflexivity. }
  split; [| exact Hinner].
  rewrite get_type_hint_eq. destruct (configtypes.none_ok typ); [| exact Hinner].
  cbn. apply prefix_empty.
Qed.

(** X11.  A descriptor that reports valid values and is not a list, a
    mapping or a boolean resolves to the literal union of the [repr] of
    those values, in their order, whatever its class; a mapping type
    without valid values resolves to the literal union of its keys. *)
Theorem valid_values_resolve_to_literal :
  (forall typ values,
     tested_before_valid_values typ = false ->
     configtypes.get_valid_values typ = Some values ->
     _get_type_hint typ = "Literal[" ++ py.join ", " (map py.repr values) ++ "]")
  /\ (forall a MAPPING,
        configtypes.attr_valid_values a = None ->
        _get_type_hint (configtypes.MappingType a MAPPING)
        = "Literal[" ++ py.join ", " (map py.repr MAPPING) ++ "]").
Proof.
  split.
  - intros typ values Hclass Hvalues.
    destruct typ as
      [[n v] ?|[n v] ? ?|[n v]|[n v] ?|[n v]|[n v]|[n v]|[n v]|[n v]|[n v]
      |[n v]|[n v]|[n v]|[n v]|[n v]|[n v]|[n v]|[n v]|[n v]|[n v]|[n v]
      |[n v]|[n v] ? ?|[n v]|[n v]|[n v]];
      try discriminate Hclass; cbn in Hvalues; subst v; reflexivity.
  - intros [n v] MAPPING Hv. cbn in Hv. subst v. reflexivity.
Qed.

Lemma valid_values_resolve_to_literal_witness :
  _get_type_hint
    (configtypes.String (configtypes.mkAttrs false (Some ["always"; "never"])))
  = "Literal['always', 'never']".
Proof.
  apply (proj1 valid_values_resolve_to_literal
           (configtypes.String (configtypes.mkAttrs false (Some ["always"; "never"])))
           ["always"; "never"]);
    reflexivity.
Defined.

(** ** Documentation strings *)

Lemma replace_without_first_char c rest new s :
  py.contains_char c s = false ->
  py.replace (String c rest) new s = s.
Proof.
  unfold py.replace. induction s as [| a s IH]; intros H; [reflexivity |].
  cbn in *. apply orb_false_iff in H as [Ha Hs].
  destruct (ascii_dec c a) as [-> | Hne].
  - now rewrite Ascii.eqb_refl in Ha.
  - now rewrite (IH Hs).
Qed.

(** X12.  A text without backslash is put between the triple quotes
    unchanged. *)
Theorem triple_quote_keeps_plain_text v :
  py.contains_char py.backslash v = false ->
  triple_quote v = triple_quotes ++ v ++ triple_quotes.
Proof.
  intros Hv. unfold triple_quote.
  now rewrite (replace_without_first_char py.backslash "+" _ v Hv).
Qed.

Lemma triple_quote_keeps_plain_text_witness :
  triple_quote "Save session." = triple_quotes ++ "Save session." ++ triple_quotes.
Proof. apply (triple_quote_keeps_plain_text "Save session."). reflexivity. Defined.

Lemma enumerate_from {A : Type} (f g : A -> string) (l : list A) :
  forall start,
    map (fun '(i, x) => if (i =? 0)%nat then f x else g x)
      (combine (seq (S start) (List.length l)) l)
    = map g l.
Proof.
  induction l as [| x l IH]; intros start; [reflexivity |].
  cbn [List.length seq combine map]. now rewrite IH.
Qed.

Lemma reindented_lines indent (lines : list string) :
  map (fun '(i, line) => if (i =? 0)%nat then line else indent ++ "    " ++ line)
    (enumerate lines)
  = match lines with
    | [] => []
    | first :: others => first :: map (fun line => indent ++ "    " ++ line) others
    end.
Proof.
  destruct lines as [| first others]; [reflexivity |].
  unfold enumerate. cbn [List.length seq combine map Nat.eqb]. f_equal.
  apply (enumerate_from (fun line => line)).
Qed.

Lemma field_description_one_line indent description :
  py.contains_char py.newline description = false ->
  field_description indent description = description.
Proof.
  intros H. unfold field_description.
  rewrite (split_without_sep _ _ H).
  change (1 <? List.length [description])%nat with false.
  rewrite andb_false_r. reflexivity.
Qed.

(** X13.  For an option whose documentation is not empty and holds no
    newline, the items emitted are its annotation and then one item: the
    indentation of the class, four spaces, [triple_quote] of the
    documentation itself (not re-indented, nothing appended) and a
    newline.  When the documentation holds no backslash either, it stands
    between the triple quotes as it was written. *)
Theorem one_line_description indent key value :
  configdata.description value <> "" ->
  py.contains_char py.newline (configdata.description value) = false ->
  option_lines indent key value
  = [ option_field indent key value;
      indent ++ "    " ++ triple_quote (configdata.description value)
      ++ py.str py.newline ]
  /\ (py.contains_char py.backslash (configdata.description value) = false ->
      option_lines indent key value
      = [ option_field indent key value;
          indent ++ "    " ++ triple_quotes ++ configdata.description value
          ++ triple_quotes ++ py.str py.newline ]).
Proof.
  intros Hnonempty Hline.
  assert (Hlines : option_lines indent key value
                   = [ option_field indent key value;
                       indent ++ "    "
                       ++ triple_quote (configdata.description value)
                       ++ py.str py.newline ]).
  { unfold option_field, option_lines. cbn [hd].
    destruct (String.eqb_spec (configdata.description value) "");
      [contradiction |].
    now rewrite field_description_one_line. }
  split; [exact Hlines |].
  intros Hbackslash. rewrite Hlines. unfold triple_quote.
  rewrite (replace_without_first_char py.backslash "+" _ _ Hbackslash).
  now rewrite !append_assoc.
Qed.

Lemma one_line_description_witness :
  option_lines "    " "session" auto_save_session
  = [ "        session: bool";
      "        " ++ triple_quotes ++ "Save session." ++ triple_quotes
      ++ py.str py.newline ].
Proof.
  apply (proj2 (one_line_description "    " "session" auto_save_session
                  ltac:(discriminate) eq_refl)).
  reflexivity.
Defined.

Lemma last_char_app a b : b <> "" -> last_char (a ++ b) = last_char b.
Proof.
  intros Hb. induction a as [| x a IH]; [reflexivity |].
  cbn [append last_char]. rewrite IH.
  destruct (a ++ b) eqn:E; [| reflexivity].
  destruct a; [cbn in E; contradiction | discriminate].
Qed.

Lemma last_char_without c s : py.contains_char c s = false -> last_char s <> Some c.
Proof.
  induction s as [| x s IH]; intros H; [discriminate |].
  cbn in H. apply orb_false_iff in H as [Hx Hs]. cbn [last_char].
  destruct s as [| y s]; [| now apply IH].
  intros Heq. injection Heq as ->. now rewrite Ascii.eqb_refl in Hx.
Qed.

Lemma substring_last s :
  s <> "" ->
  option_map py.str (last_char s)
  = Some (String.substring (String.length s - 1) 1 s).
Proof.
  induction s as [| x s IH]; intros Hs; [contradiction |].
  destruct s as [| y s]; [reflexivity |].
  specialize (IH ltac:(discriminate)).
  cbn [last_char String.length] in *.
  replace (S (S (String.length s)) - 1) with (S (S (String.length s) - 1)) by lia.
  cbn [String.substring]. exact IH.
Qed.

Lemma endswith_char s c : py.endswith s (py.str c) = true -> last_char s = Some c.
Proof.
  unfold py.endswith. cbn [py.str String.length].
  intros H. apply andb_prop in H as [Hlen Heq].
  apply String.eqb_eq in Heq.
  assert (Hs : s <> "") by (intros ->; discriminate Hlen).
  pose proof (substring_last s Hs) as Hlast. rewrite Heq in Hlast.
  destruct (last_char s); [| discriminate].
  cbn in Hlast. now injection Hlast as ->.
Qed.

Lemma concat_last sep (l : list string) :
  l <> [] -> last l "" <> "" ->
  String.concat sep l <> ""
  /\ last_char (String.concat sep l) = last_char (last l "").
Proof.
  induction l as [| x l IH]; intros Hl Hlast; [contradiction |].
  destruct l as [| y l]; [split; [exact Hlast | reflexivity] |].
  destruct (IH ltac:(discriminate) Hlast) as [Hne Heq].
  change (String.concat sep (x :: y :: l))
    with (x ++ sep ++ String.concat sep (y :: l)).
  change (last (x :: y :: l) "") with (last (y :: l) "").
  assert (Htail : sep ++ String.concat sep (y :: l) <> "").
  { destruct sep; [exact Hne | discriminate]. }
  split.
  - destruct x; [exact Htail | discriminate].
  - rewrite last_char_app by exact Htail.
    rewrite last_char_app by exact Hne. exact Heq.
Qed.

Lemma last_of_map (f : string -> string) (P : string -> Prop) (l : list string) :
  l <> [] -> Forall P l ->
  exists line, last (map f l) "" = f line /\ P line.
Proof.
  intros Hl H. induction H as [| x l Hx _ IH]; [contradiction |].
  destruct l as [| y l]; [exists x; split; [reflexivity | exact Hx] |].
  apply IH. discriminate.
Qed.

(** X14.  A documentation text of several lines is emitted with its lines
    separated by a blank line, every line after the first indented like
    the fields of the class, and followed by a newline and that
    indentation, so that the closing quotes stand on a line of their own:
    the test of line 178 for a final newline never holds. *)
Theorem several_line_description indent description :
  py.contains_char py.newline description = true ->
  exists first others,
    py.split py.newline description = first :: others
    /\ others <> []
    /\ field_description indent description
       = py.join (String py.newline (py.str py.newline))
           (first :: map (fun line => indent ++ "    " ++ line) others)
         ++ String py.newline (indent ++ "    ").
Proof.
  intros H. pose proof (split_with_sep _ _ H) as Hlen.
  pose proof (split_parts_no_sep py.newline description) as Hparts.
  unfold field_description. rewrite reindented_lines.
  destruct (py.split py.newline description) as [| first [| second others]];
    cbn in Hlen; try lia.
  exists first, (second :: others). split; [reflexivity |].
  split; [discriminate |].
  change (1 <? List.length (first :: second :: others))%nat with true.
  rewrite andb_true_r.
  set (joined := py.join _ _).
  destruct (py.endswith joined (py.str py.newline)) eqn:Hends; [| reflexivity].
  exfalso. apply endswith_char in Hends.
  set (reindent := fun line : string => indent ++ "    " ++ line) in *.
  assert (Hlast : exists line,
             last (first :: map reindent (second :: others)) "" = reindent line
             /\ py.contains_char py.newline line = false).
  { inversion Hparts as [| ? ? _ Hrest]; subst.
    change (last (first :: map reindent (second :: others)) "")
      with (last (map reindent (second :: others)) "").
    apply last_of_map; [discriminate | exact Hrest]. }
  destruct Hlast as (line & Hlast & Hline).
  destruct (concat_last (String py.newline (py.str py.newline))
              (first :: map reindent (second :: others)))
    as [_ Hchar].
  - discriminate.
  - rewrite Hlast. unfold reindent. destruct indent; discriminate.
  - unfold joined, py.join in Hends. rewrite Hchar, Hlast in Hends.
    unfold reindent in Hends.
    rewrite last_char_app in Hends by discriminate.
    apply last_char_without in Hends; [exact Hends |].
    cbn. exact Hline.
Qed.

Lemma several_line_description_witness :
  exists first others,
    py.split py.newline (String "a" (String py.newline "b")) = first :: others
    /\ others <> []
    /\ field_description "    " (String "a" (String py.newline "b"))
       = py.join (String py.newline (py.str py.newline))
           (first :: map (fun line => "    " ++ "    " ++ line) others)
         ++ String py.newline ("    " ++ "    ").
Proof.
  apply (several_line_description "    " (String "a" (String py.newline "b"))).
  reflexivity.
Defined.

(** ** Layout of the emitted items *)

Lemma prefix_app s t : String.prefix s (s ++ t) = true.
Proof.
  induction s as [| c s IH]; [apply prefix_empty |].
  cbn. destruct (ascii_dec c c); [exact IH | contradiction].
Qed.

Lemma prefix_shorter s u x :
  String.prefix (s ++ u) x = true -> String.prefix s x = true.
Proof.
  revert x. induction s as [| c s IH]; intros x H; [apply prefix_empty |].
  destruct x as [| y x]; [discriminate |]. cbn in *.
  destruct (ascii_dec c y); [now apply IH | discriminate].
Qed.

Lemma prefix_deeper indent rest :
  String.prefix (indent ++ "    ") (indent ++ "    " ++ rest) = true.
Proof. rewrite <- append_assoc. apply prefix_app. Qed.

Lemma class_member_indented value :
  forall indent key,
    Forall (fun item => String.prefix (indent ++ "    ") item = true)
      (class_member indent key value).
Proof.
  induction value as [o | d IH] using ConfigValue_induction; intros indent key.
  - cbn [class_member]. unfold option_lines.
    constructor; [destruct (configdata.default o); apply prefix_deeper |].
    destruct (String.eqb (configdata.description o) ""); constructor;
      [apply prefix_deeper | constructor].
  - rewrite class_member_VDict, generate_class_eq. unfold class_head.
    constructor; [apply prefix_deeper |].
    cbn [app]. constructor; [apply prefix_app |].
    constructor; [apply prefix_app |].
    induction IH as [| [k v] d Hv _ IHd]; [constructor |].
    cbn [flat_map snd] in *. apply Forall_app. split; [| exact IHd].
    eapply Forall_impl; [| apply (Hv (indent ++ "    ") k)].
    cbn. intros item. apply prefix_shorter.
Qed.

(** X15.  The class definition that [generate_class] returns starts with
    the decorator and the [class] line at the given indentation, and every
    item after them (documentation, fields and nested classes) starts with
    that indentation and four more spaces: the body of a class is a block
    below its [class] line. *)
Theorem class_body_is_indented class_name config indent description :
  exists body,
    generate_class class_name config indent description
    = (indent ++ "@dataclass") :: (indent ++ "class " ++ class_name ++ ":") :: body
    /\ Forall (fun item => String.prefix (indent ++ "    ") item = true) body.
Proof.
  rewrite generate_class_eq. unfold class_head. cbn [app].
  eexists. split; [reflexivity |].
  apply Forall_app. split.
  - destruct description; constructor; [apply prefix_deeper | constructor].
  - induction config as [| [k v] config IH]; [constructor |].
    cbn [flat_map]. apply Forall_app. split; [apply class_member_indented | exact IH].
Qed.

(** ** Two runs on the same objects *)

Lemma read_lt h l obj : heap.read h l = Some obj -> l < List.length h.
Proof. unfold heap.read. intros H. apply nth_error_Some. congruence. Qed.

Lemma read_app_old h more l :
  l < List.length h -> heap.read (h ++ more)%list l = heap.read h l.
Proof. intros H. unfold heap.read. now apply nth_error_app1. Qed.

Lemma read_app_new h obj :
  heap.read (h ++ [obj])%list (List.length h) = Some obj.
Proof.
  unfold heap.read. rewrite nth_error_app2 by lia. now rewrite Nat.sub_diag.
Qed.

Lemma write_length h l obj : List.length (heap.write h l obj) = List.length h.
Proof.
  revert l. induction h as [| x h IH]; intros [| l]; cbn; auto.
Qed.

Lemma read_write_same h l obj :
  l < List.length h -> heap.read (heap.write h l obj) l = Some obj.
Proof.
  revert l. induction h as [| x h IH]; intros [| l] H; cbn in *; try lia;
    [reflexivity |].
  apply IH. lia.
Qed.

Lemma read_write_other h l l' obj :
  l <> l' -> heap.read (heap.write h l obj) l' = heap.read h l'.
Proof.
  revert l l'. induction h as [| x h IH]; intros [| l] [| l'] H; cbn;
    try reflexivity; try contradiction.
  apply IH. congruence.
Qed.

Section Entries.
Context {A B : Type} (f : A -> B).
Implicit Types (d : list (string * A)) (k : string).

Lemma get_map k d :
  py.get k (map (fun '(k', v) => (k', f v)) d) = option_map f (py.get k d).
Proof.
  induction d as [| [k' v] d IH]; [reflexivity |]. cbn.
  destruct (String.eqb k' k); [reflexivity | exact IH].
Qed.

Lemma set_map k v d :
  map (fun '(k', v') => (k', f v')) (py.set k v d)
  = py.set k (f v) (map (fun '(k', v') => (k', f v')) d).
Proof.
  induction d as [| [k' v'] d IH]; [reflexivity |]. cbn.
  destruct (String.eqb k' k); cbn; [reflexivity | now rewrite IH].
Qed.

Lemma set_same k (v : A) d : py.get k d = Some v -> py.set k v d = d.
Proof.
  induction d as [| [k' v'] d IH]; [discriminate |]. cbn.
  destruct (String.eqb_spec k' k) as [-> | Hne].
  - intros H. now injection H as ->.
  - intros H. now rewrite IH.
Qed.

Lemma set_permutation k (v : A) d :
  Permutation (py.set k v d) ((k, v) :: remove_key k d).
Proof.
  induction d as [| [k' v'] d IH]; [reflexivity |]. cbn.
  destruct (String.eqb k' k); [reflexivity |].
  rewrite IH. apply perm_swap.
Qed.

Lemma get_permutation k (v : A) d :
  py.get k d = Some v -> Permutation d ((k, v) :: remove_key k d).
Proof.
  induction d as [| [k' v'] d IH]; [discriminate |]. cbn.
  destruct (String.eqb_spec k' k) as [-> | Hne].
  - intros H. now injection H as ->.
  - intros H. rewrite (IH H) at 1. apply perm_swap.
Qed.

Lemma remove_key_absent k d : py.get k d = None -> remove_key k d = d.
Proof.
  induction d as [| [k' v'] d IH]; [reflexivity |]. cbn.
  destruct (String.eqb k' k); [discriminate |].
  intros H. now rewrite IH.
Qed.
End Entries.

Lemma Located_induction (P : Located -> Prop) :
  (forall l o, P (LOption l o)) ->
  (forall l children, Forall (fun kc => P (snd kc)) children -> P (LDict l children)) ->
  forall t, P t.
Proof.
  intros HO HD. fix IH 1. intros [l o | l children]; [apply HO | apply HD].
  induction children as [| [k c] children IHc]; constructor; [apply IH | exact IHc].
Qed.

Lemma dict_object_reference t :
  forall x entries, In (x, heap.Dict entries) (objects t) -> In x (dict_references t).
Proof.
  induction t as [l o | l children IH] using Located_induction;
    intros x entries Hin; cbn in *.
  - destruct Hin as [H | []]. discriminate.
  - destruct Hin as [H | Hin]; [injection H as -> _; now left |].
    right. apply in_flat_map in Hin as ([k c] & Hc & Hin).
    apply in_flat_map. exists (k, c). split; [exact Hc |].
    rewrite Forall_forall in IH. apply (IH _ Hc x entries Hin).
Qed.

Lemma holds_dict base h l children :
  holds base h (LDict l children) <->
  (heap.read h l = Some (heap.Dict (references children)) /\ base <= l)
  /\ Forall (placed base h) (child_objects children)
  /\ NoDup (l :: child_dicts children).
Proof.
  unfold holds. cbn [objects dict_references]. fold (child_objects children).
  fold (child_dicts children). rewrite Forall_cons_iff. unfold placed at 1. cbn.
  tauto.
Qed.

Lemma child_objects_cons k c children :
  child_objects ((k, c) :: children) = (objects c ++ child_objects children)%list.
Proof. reflexivity. Qed.

Lemma child_dicts_cons k c children :
  child_dicts ((k, c) :: children) = (dict_references c ++ child_dicts children)%list.
Proof. reflexivity. Qed.

Lemma child_objects_permutation ch ch' :
  Permutation ch ch' -> Permutation (child_objects ch) (child_objects ch').
Proof. apply Permutation_flat_map. Qed.

Lemma child_dicts_permutation ch ch' :
  Permutation ch ch' -> Permutation (child_dicts ch) (child_dicts ch').
Proof. apply Permutation_flat_map. Qed.

Lemma dict_reference_object t :
  forall x, In x (dict_references t) -> exists entries, In (x, heap.Dict entries) (objects t).
Proof.
  induction t as [l o | l children IH] using Located_induction; intros x Hin;
    cbn in *; [contradiction |].
  destruct Hin as [<- | Hin]; [eexists; now left |].
  apply in_flat_map in Hin as ([k c] & Hc & Hin).
  rewrite Forall_forall in IH. destruct (IH _ Hc x Hin) as (entries & He).
  exists entries. right. apply in_flat_map. now exists (k, c).
Qed.

Lemma child_dict_object children x entries :
  In (x, heap.Dict entries) (child_objects children) -> In x (child_dicts children).
Proof.
  unfold child_objects, child_dicts. intros Hin.
  apply in_flat_map in Hin as ([k c] & Hc & Hin).
  apply in_flat_map. exists (k, c). split; [exact Hc |].
  eapply dict_object_reference, Hin.
Qed.

Lemma child_dict_reference children x :
  In x (child_dicts children) ->
  exists entries, In (x, heap.Dict entries) (child_objects children).
Proof.
  unfold child_objects, child_dicts. intros Hin.
  apply in_flat_map in Hin as ([k c] & Hc & Hin).
  destruct (dict_reference_object c x Hin) as (entries & He).
  exists entries. apply in_flat_map. now exists (k, c).
Qed.

Lemma NoDup_app_disjoint {A : Type} (a b : list A) x :
  NoDup (a ++ b) -> In x a -> ~ In x b.
Proof.
  induction a as [| y a IH]; intros Hnodup Hin; [contradiction |].
  cbn in Hnodup. inversion Hnodup as [| ? ? Hy Hrest]; subst.
  destruct Hin as [-> | Hin]; [| now apply IH].
  intros Hb. apply Hy. apply in_or_app. now right.
Qed.

Lemma remove_key_incl {A : Type} k (d : list (string * A)) : incl (remove_key k d) d.
Proof.
  induction d as [| [k' v] d IH]; [easy |]. cbn.
  destruct (String.eqb k' k); [now apply incl_tl |].
  intros x [<- | Hx]; [now left | right; now apply IH].
Qed.

Lemma child_objects_remove k children cell :
  In cell (child_objects (remove_key k children)) -> In cell (child_objects children).
Proof.
  unfold child_objects. intros Hin. apply in_flat_map in Hin as (kc & Hkc & Hin).
  apply in_flat_map. exists kc. split; [now apply (remove_key_incl k) | exact Hin].
Qed.

Lemma child_dicts_remove k children x :
  In x (child_dicts (remove_key k children)) -> In x (child_dicts children).
Proof.
  unfold child_dicts. intros Hin. apply in_flat_map in Hin as (kc & Hkc & Hin).
  apply in_flat_map. exists kc. split; [now apply (remove_key_incl k) | exact Hin].
Qed.

Lemma child_dicts_get k children c :
  py.get k children = Some c ->
  Permutation (child_dicts children)
    (dict_references c ++ child_dicts (remove_key k children)).
Proof.
  intros Hget. apply get_permutation in Hget.
  now apply child_dicts_permutation in Hget.
Qed.

Lemma child_objects_get k children c :
  py.get k children = Some c ->
  Permutation (child_objects children)
    (objects c ++ child_objects (remove_key k children)).
Proof.
  intros Hget. apply get_permutation in Hget.
  now apply child_objects_permutation in Hget.
Qed.

Lemma child_dicts_remove_NoDup k children :
  NoDup (child_dicts children) -> NoDup (child_dicts (remove_key k children)).
Proof.
  intros Hnodup. destruct (py.get k children) as [c |] eqn:Hget.
  - eapply Permutation_NoDup in Hnodup; [| apply (child_dicts_get _ _ _ Hget)].
    eapply NoDup_app_remove_l, Hnodup.
  - now rewrite remove_key_absent.
Qed.

Lemma holds_frame base h h' t :
  holds base h t ->
  (forall cell, In cell (objects t) ->
                heap.read h' (fst cell) = heap.read h (fst cell)) ->
  holds base h' t.
Proof.
  intros [Hobjs Hnodup] Hsame. split; [| exact Hnodup].
  rewrite Forall_forall in *. intros cell Hin.
  destruct (Hobjs cell Hin) as [Hread Hplace]. split; [| exact Hplace].
  now rewrite Hsame.
Qed.

Lemma holds_child_get base h l children k c :
  holds base h (LDict l children) -> py.get k children = Some c -> holds base h c.
Proof.
  intros H Hget. apply holds_dict in H as (_ & Hobjs & Hnodup). split.
  - eapply Permutation_Forall in Hobjs; [| apply (child_objects_get _ _ _ Hget)].
    now apply Forall_app in Hobjs.
  - inversion Hnodup as [| ? ? _ Hdicts]; subst.
    eapply Permutation_NoDup in Hdicts; [| apply (child_dicts_get _ _ _ Hget)].
    eapply NoDup_app_remove_r, Hdicts.
Qed.

(** The objects below a dictionary lie inside the heap and apart from the
    dictionary itself. *)
Lemma child_object_bounds base h l children cell :
  holds base h (LDict l children) ->
  In cell (child_objects children) ->
  fst cell < List.length h /\ fst cell <> l.
Proof.
  intros H Hin. apply holds_dict in H as ((_ & Hbase) & Hobjs & Hnodup).
  rewrite Forall_forall in Hobjs. destruct (Hobjs cell Hin) as [Hread Hplace].
  split; [eapply read_lt, Hread |].
  destruct cell as [x [entries | o]]; cbn in *; [| lia].
  intros ->. inversion Hnodup as [| ? ? Hl _]; subst.
  apply Hl. eapply child_dict_object, Hin.
Qed.

Lemma dict_reference_bounds base h t x :
  holds base h t -> In x (dict_references t) -> base <= x < List.length h.
Proof.
  intros [Hobjs _] Hin. destruct (dict_reference_object t x Hin) as (entries & He).
  rewrite Forall_forall in Hobjs. destruct (Hobjs _ He) as [Hread Hplace].
  cbn in *. split; [exact Hplace | eapply read_lt, Hread].
Qed.

(** The dictionary holds again when one of its entries is set to a child
    that the new heap holds, the dictionary object has the entry, and the
    other children are as before and apart from the new one. *)
Lemma holds_set_child base h h' l children k c' :
  holds base h (LDict l children) ->
  holds base h' c' ->
  heap.read h' l
  = Some (heap.Dict (py.set k (reference c') (references children))) ->
  (forall cell, In cell (child_objects (remove_key k children)) ->
                heap.read h' (fst cell) = heap.read h (fst cell)) ->
  (forall x, In x (dict_references c') ->
             x <> l /\ ~ In x (child_dicts (remove_key k children))) ->
  holds base h' (LDict l (py.set k c' children)).
Proof.
  intros H Hc' Hread Hsame Hapart.
  apply holds_dict in H as ((_ & Hbase) & Hobjs & Hnodup).
  apply holds_dict. split; [split; [| exact Hbase] |].
  - unfold references. now rewrite set_map.
  - split.
    + eapply Permutation_Forall;
        [symmetry; apply child_objects_permutation, set_permutation |].
      rewrite child_objects_cons. apply Forall_app. split; [apply Hc' |].
      rewrite Forall_forall in *. intros cell Hin.
      destruct (Hobjs cell (child_objects_remove _ _ _ Hin)) as [Hr Hp].
      split; [| exact Hp]. now rewrite Hsame.
    + inversion Hnodup as [| ? ? Hl Hdicts]; subst.
      eapply Permutation_NoDup;
        [symmetry; apply perm_skip, child_dicts_permutation, set_permutation |].
      rewrite child_dicts_cons. constructor.
      * rewrite in_app_iff. intros [Hin | Hin].
        -- destruct (Hapart l Hin) as [Hne _]. now apply Hne.
        -- apply Hl. eapply child_dicts_remove, Hin.
      * apply NoDup_app; [apply Hc' | now apply child_dicts_remove_NoDup |].
        intros x Hin. now apply Hapart.
Qed.

(** The store on the heap does what [store_option] does on the value the
    dictionary stands for; it writes to that dictionary and below it, and
    otherwise to new objects only. *)
Lemma store_option_in_spec base name value v path :
  forall l children h,
    holds base h (LDict l children) ->
    value < base ->
    heap.read h value = Some (heap.Opt v) ->
    exists h' r,
      store_option_in path name value l h = (h', r)
      /\ List.length h <= List.length h'
      /\ (forall x, x < List.length h -> ~ In x (l :: child_dicts children) ->
                    heap.read h' x = heap.read h x)
      /\ match store_option path name v (values_of children) with
         | py.Ok d' =>
             r = py.Ok tt
             /\ exists children',
                 holds base h' (LDict l children')
                 /\ values_of children' = d'
                 /\ (forall x, In x (child_dicts children') ->
                               In x (child_dicts children) \/ List.length h <= x)
         | py.Raise e => r = py.Raise e
         end.
Proof.
  induction path as [| part path IH]; intros l children h Hholds Hvalue Hoption.
  - pose proof Hholds as Hparent.
    apply holds_dict in Hparent as ((Hread & Hbase) & Hobjs & Hnodup).
    pose proof (read_lt _ _ _ Hread) as Hl.
    cbn [store_option_in store_option]. rewrite Hread.
    eexists _, _. split; [reflexivity |].
    split; [now rewrite write_length |].
    split.
    { intros x _ Hx. apply read_write_other. intros ->. apply Hx. now left. }
    split; [reflexivity |].
    exists (py.set name (LOption value v) children).
    split; [| split].
    + eapply holds_set_child; [exact Hholds | | | |].
      * split; [| constructor]. constructor; [| constructor].
        split; cbn; [| exact Hvalue].
        rewrite read_write_other by lia. exact Hoption.
      * cbn [reference]. now apply read_write_same.
      * intros cell Hin. apply read_write_other.
        apply child_objects_remove in Hin.
        destruct (child_object_bounds _ _ _ _ _ Hholds Hin) as [_ Hne]. congruence.
      * intros x [].
    + unfold values_of. now rewrite set_map.
    + intros x Hin. left.
      eapply Permutation_in in Hin;
        [| apply child_dicts_permutation, set_permutation].
      rewrite child_dicts_cons in Hin. cbn in Hin.
      eapply child_dicts_remove, Hin.
  - pose proof Hholds as Hparent.
    apply holds_dict in Hparent as ((Hread & Hbase) & Hobjs & Hnodup).
    pose proof (read_lt _ _ _ Hread) as Hl.
    inversion Hnodup as [| ? ? Hlnot Hdicts]; subst.
    cbn [store_option_in store_option]. rewrite Hread.
    unfold references at 1. rewrite get_map.
    unfold values_of at 1. rewrite get_map.
    set (h1 := (h ++ [heap.Dict []])%list).
    assert (Hh1 : forall x, x < List.length h -> heap.read h1 x = heap.read h x)
      by (intros x Hx; now apply read_app_old).
    assert (Hlen1 : List.length h1 = S (List.length h))
      by (unfold h1; rewrite length_app; cbn; lia).
    destruct (py.get part children) as [[lc o | lc chc] |] eqn:Hget;
      cbn [option_map reference value_of].
    + (* the part leads to an option *)
      pose proof (holds_child_get _ _ _ _ _ _ Hholds Hget) as [Hc _].
      inversion Hc as [| ? ? [Hrc _] _]; subst. cbn in Hrc.
      assert (Hrc1 : heap.read h1 lc = Some (heap.Opt o))
        by (rewrite Hh1; [exact Hrc | eapply read_lt, Hrc]).
      destruct path as [| next path]; cbn [store_option_in]; rewrite Hrc1;
        (eexists _, _; split; [reflexivity |]);
        (split; [lia |]); (split; [intros x Hx _; now apply Hh1 | reflexivity]).
    + (* the part leads to a dictionary *)
      pose proof (holds_child_get _ _ _ _ _ _ Hholds Hget) as Hchild.
      pose proof (child_dicts_get _ _ _ Hget) as Hperm.
      assert (Hsub : forall x, In x (dict_references (LDict lc chc)) ->
                               In x (child_dicts children)).
      { intros x Hx. eapply Permutation_in; [symmetry; exact Hperm |].
        apply in_or_app. now left. }
      assert (Hchild1 : holds base h1 (LDict lc chc)).
      { eapply holds_frame; [exact Hchild |]. intros cell Hin. apply Hh1.
        destruct Hchild as [Hco _]. rewrite Forall_forall in Hco.
        destruct (Hco _ Hin) as [Hr _]. eapply read_lt, Hr. }
      destruct (IH lc chc h1 Hchild1 Hvalue) as (h' & r & Hrun & Hlen & Hframe & Hres).
      { rewrite Hh1; [exact Hoption | eapply read_lt, Hoption]. }
      exists h', r. split; [exact Hrun |]. split; [lia |].
      assert (Hframe' : forall x, x < List.length h ->
                                  ~ In x (dict_references (LDict lc chc)) ->
                                  heap.read h' x = heap.read h x).
      { intros x Hx Hnot. rewrite Hframe by (lia || exact Hnot). now apply Hh1. }
      split.
      { intros x Hx Hnot. apply Hframe'; [exact Hx |].
        intros Hin. apply Hnot. right. now apply Hsub. }
      cbn [values_of value_of] in *. fold (values_of chc) in *.
      destruct (store_option path name v (values_of chc)) as [d' | e];
        cbn [py.bind]; [| exact Hres].
      destruct Hres as (-> & chc' & Hholds' & <- & Hnew).
      split; [reflexivity |].
      exists (py.set part (LDict lc chc') children).
      split; [| split].
      * eapply holds_set_child; [exact Hholds | exact Hholds' | | |].
        -- cbn [reference]. rewrite set_same
             by (unfold references; rewrite get_map, Hget; reflexivity).
           rewrite Hframe'; [exact Hread | exact Hl |].
           intros Hin. apply Hlnot. now apply Hsub.
        -- intros cell Hin. pose proof (child_objects_remove _ _ _ Hin) as Hin'.
           destruct (child_object_bounds _ _ _ _ _ Hholds Hin') as [Hlt _].
           apply Hframe'; [exact Hlt |]. intros Hd.
           rewrite Forall_forall in Hobjs. destruct (Hobjs _ Hin') as [_ Hplace].
           destruct cell as [x [entries | o]]; cbn [fst snd] in *.
           ++ apply child_dict_object in Hin.
              eapply Permutation_NoDup in Hdicts; [| exact Hperm].
              eapply NoDup_app_disjoint; eassumption.
           ++ destruct (dict_reference_bounds _ _ _ _ Hchild Hd). lia.
        -- intros x Hx.
           assert (Hcase : In x (dict_references (LDict lc chc))
                           \/ List.length h1 <= x).
           { cbn [dict_references] in Hx |- *. fold (child_dicts chc').
             fold (child_dicts chc') in Hx. fold (child_dicts chc).
             destruct Hx as [<- | Hx]; [left; now left |].
             destruct (Hnew x Hx) as [H | H]; [left; now right | now right]. }
           destruct Hcase as [Hold | Hfresh].
           ++ split.
              ** intros ->. apply Hlnot. now apply Hsub.
              ** eapply Permutation_NoDup in Hdicts; [| exact Hperm].
                 eapply NoDup_app_disjoint; eassumption.
           ++ split; [lia |]. intros Hin. apply child_dicts_remove in Hin.
              destruct (child_dict_reference _ _ Hin) as (entries & He).
              destruct (child_object_bounds _ _ _ _ _ Hholds He). cbn in *. lia.
      * unfold values_of. rewrite set_map. reflexivity.
      * intros x Hin.
        eapply Permutation_in in Hin;
          [| apply child_dicts_permutation, set_permutation].
        rewrite child_dicts_cons in Hin. apply in_app_or in Hin as [Hin | Hin].
        -- cbn [dict_references] in Hin. fold (child_dicts chc') in Hin.
           destruct Hin as [<- | Hin].
           ++ left. apply Hsub. now left.
           ++ destruct (Hnew x Hin) as [H | H]; [| right; lia].
              left. apply Hsub. now right.
        -- left. eapply child_dicts_remove, Hin.
    + (* the part is new *)
      set (fresh := List.length h).
      set (h2 := heap.write h1 l (heap.Dict (py.set part fresh (references children)))).
      assert (Hlen2 : List.length h2 = S (List.length h))
        by (unfold h2; now rewrite write_length).
      assert (Hh2 : forall x, x < List.length h -> x <> l ->
                              heap.read h2 x = heap.read h x).
      { intros x Hx Hne. unfold h2. rewrite read_write_other by congruence.
        now apply Hh1. }
      assert (Hfresh : holds base h2 (LDict fresh [])).
      { apply holds_dict. split; [split; [| unfold fresh; lia] |].
        - unfold h2. rewrite read_write_other by (unfold fresh; lia).
          apply read_app_new.
        - split; [constructor |]. constructor; [intros [] | constructor]. }
      destruct (IH fresh [] h2 Hfresh Hvalue) as (h' & r & Hrun & Hlen & Hframe & Hres).
      { rewrite Hh2; [exact Hoption | eapply read_lt, Hoption | lia]. }
      exists h', r. split; [exact Hrun |]. split; [lia |].
      assert (Hframe' : forall x, x < List.length h -> x <> l ->
                                  heap.read h' x = heap.read h x).
      { intros x Hx Hne. rewrite Hframe; [now apply Hh2 | lia |].
        cbn. unfold fresh. lia. }
      split.
      { intros x Hx Hnot. apply Hframe'; [exact Hx |].
        intros ->. apply Hnot. now left. }
      change (values_of []) with (@nil (string * ConfigValue)) in Hres.
      destruct (store_option path name v []) as [d' | e];
        cbn [py.bind]; [| exact Hres].
      destruct Hres as (-> & chc' & Hholds' & <- & Hnew).
      split; [reflexivity |].
      exists (py.set part (LDict fresh chc') children).
      assert (Hnewrefs : forall x, In x (dict_references (LDict fresh chc')) ->
                                   List.length h <= x).
      { intros x Hx. cbn [dict_references] in Hx. fold (child_dicts chc') in Hx.
        destruct Hx as [<- | Hx]; [unfold fresh; lia |].
        destruct (Hnew x Hx) as [[] | H]. lia. }
      split; [| split].
      * eapply holds_set_child; [exact Hholds | exact Hholds' | | |].
        -- cbn [reference]. rewrite Hframe by (cbn; unfold fresh; lia).
           unfold h2. apply read_write_same. lia.
        -- intros cell Hin. apply child_objects_remove in Hin.
           destruct (child_object_bounds _ _ _ _ _ Hholds Hin) as [Hlt Hne].
           now apply Hframe'.
        -- intros x Hx. apply Hnewrefs in Hx. split; [lia |].
           intros Hin. apply child_dicts_remove in Hin.
           destruct (child_dict_reference _ _ Hin) as (entries & He).
           destruct (child_object_bounds _ _ _ _ _ Hholds He). cbn in *. lia.
      * unfold values_of. rewrite set_map. reflexivity.
      * intros x Hin.
        eapply Permutation_in in Hin;
          [| apply child_dicts_permutation, set_permutation].
        rewrite child_dicts_cons in Hin. apply in_app_or in Hin as [Hin | Hin].
        -- right. now apply Hnewrefs.
        -- left. eapply child_dicts_remove, Hin.
Qed.

Lemma refers_to_frame base h h' items config :
  (forall x, x < base -> heap.read h' x = heap.read h x) ->
  refers_to base h items config -> refers_to base h' items config.
Proof.
  intros Hframe H. induction H as [| item kv items config (Hk & Hlt & Hread) _ IH];
    constructor; [| exact IH].
  split; [exact Hk |]. split; [exact Hlt |]. now rewrite Hframe.
Qed.

Lemma store_options_in_spec base :
  forall items config l children h,
    holds base h (LDict l children) ->
    refers_to base h items config ->
    exists h' r,
      store_options_in items l h = (h', r)
      /\ List.length h <= List.length h'
      /\ (forall x, x < base -> heap.read h' x = heap.read h x)
      /\ match store_options config (values_of children) with
         | py.Ok d' =>
             r = py.Ok tt
             /\ exists children',
                 holds base h' (LDict l children') /\ values_of children' = d'
         | py.Raise e => r = py.Raise e
         end.
Proof.
  induction items as [| [key value] items IH];
    intros config l children h Hholds Hrefers;
    inversion Hrefers as [| ? [key' o] ? config' (Hk & Hlt & Hread) Hrest]; subst.
  - cbn. eexists _, _. split; [reflexivity |]. split; [lia |].
    split; [reflexivity |]. split; [reflexivity |]. now exists children.
  - cbn [fst snd] in *. subst key'. cbn [store_options_in store_options].
    destruct (store_option_in_spec base (last (py.split "." key) "") value o
                (removelast (py.split "." key)) l children h Hholds Hlt Hread)
      as (h1 & r1 & Hrun & Hlen & Hframe & Hres).
    rewrite Hrun.
    assert (Hinput : forall x, x < base -> heap.read h1 x = heap.read h x).
    { intros x Hx.
      pose proof (dict_reference_bounds base h (LDict l children) l Hholds
                    (or_introl eq_refl)) as Hl.
      apply Hframe; [lia |]. intros Hin.
      destruct (dict_reference_bounds base h (LDict l children) x Hholds Hin). lia. }
    destruct (store_option (removelast (py.split "." key))
                (last (py.split "." key) "") o (values_of children)) as [d1 | e];
      cbn [py.bind].
    + destruct Hres as (-> & children1 & Hholds1 & <- & _).
      destruct (IH config' l children1 h1 Hholds1
                  (refers_to_frame _ _ _ _ _ Hinput Hrest))
        as (h' & r & Hrun' & Hlen' & Hframe' & Hres').
      exists h', r. split; [exact Hrun' |]. split; [lia |].
      split; [| exact Hres'].
      intros x Hx. rewrite Hframe' by exact Hx. now apply Hinput.
    + subst r1. eexists _, _. split; [reflexivity |]. split; [exact Hlen |].
      split; [exact Hinput | reflexivity].
Qed.

Lemma snapshot_refers h config config_data :
  snapshot h config = Some config_data <->
  exists items,
    heap.read h config = Some (heap.Dict items)
    /\ refers_to (List.length h) h items config_data.
Proof.
  unfold snapshot. split.
  - destruct (heap.read h config) as [[items | o] |]; try discriminate.
    intros H. exists items. split; [reflexivity |].
    revert config_data H. induction items as [| [k l] items IH];
      intros config_data H; cbn [map all_some] in H.
    + injection H as <-. constructor.
    + destruct (heap.read h l) as [[entries | o] |] eqn:Hl; try discriminate.
      destruct (all_some _) as [rest |]; [| discriminate].
      injection H as <-. constructor; [| now apply IH].
      cbn. split; [reflexivity |]. split; [eapply read_lt, Hl | exact Hl].
  - intros (items & -> & H).
    induction H as [| [k l] [k' o] items config' (Hk & _ & Hread) _ IH];
      [reflexivity |].
    cbn [fst snd] in *. subst k'. cbn [map all_some]. now rewrite Hread, IH.
Qed.

Lemma make_nested_config_in_spec h config config_data :
  snapshot h config = Some config_data ->
  exists h1 r,
    make_nested_config_in config h = (h1, r)
    /\ (forall x, x < List.length h -> heap.read h1 x = heap.read h x)
    /\ match make_nested_config config_data with
       | py.Ok tree =>
           r = py.Ok (List.length h)
           /\ exists children,
               holds (List.length h) h1 (LDict (List.length h) children)
               /\ values_of children = tree
       | py.Raise e => r = py.Raise e
       end.
Proof.
  intros Hsnap. apply snapshot_refers in Hsnap as (items & Hread & Hrefers).
  set (base := List.length h) in *.
  set (h0 := (h ++ [heap.Dict []])%list).
  assert (Hh0 : forall x, x < base -> heap.read h0 x = heap.read h x)
    by (intros x Hx; now apply read_app_old).
  assert (Hroot : holds base h0 (LDict base [])).
  { apply holds_dict. split; [split; [apply read_app_new | lia] |].
    split; [constructor |]. constructor; [intros [] | constructor]. }
  destruct (store_options_in_spec base items config_data base [] h0 Hroot
              (refers_to_frame _ _ _ _ _ Hh0 Hrefers))
    as (h1 & r & Hrun & _ & Hframe & Hres).
  unfold make_nested_config_in. fold base. fold h0.
  rewrite Hh0 by (eapply read_lt, Hread). rewrite Hread, Hrun.
  change (values_of []) with (@nil (string * ConfigValue)) in Hres.
  fold (make_nested_config config_data) in Hres.
  destruct (make_nested_config config_data) as [tree | e].
  - destruct Hres as (-> & children & Hholds & Hvalues).
    eexists _, _. split; [reflexivity |]. split.
    + intros x Hx. rewrite Hframe by exact Hx. now apply Hh0.
    + split; [reflexivity |]. now exists children.
  - subst r. eexists _, _. split; [reflexivity |]. split; [| reflexivity].
    intros x Hx. rewrite Hframe by exact Hx. now apply Hh0.
Qed.

Lemma generate_class_in_spec base h :
  forall fuel l children class_name indent description,
    Forall (placed base h) (objects (LDict l children)) ->
    height (LDict l children) <= fuel ->
    generate_class_in fuel h class_name l indent description
    = Some (generate_class class_name (values_of children) indent description).
Proof.
  induction fuel as [| fuel IH];
    intros l children class_name indent description Hobjs Hheight;
    [cbn in Hheight; lia |].
  cbn [objects] in Hobjs. fold (child_objects children) in Hobjs.
  inversion Hobjs as [| ? ? [Hread _] Hchildren]; subst. cbn [fst snd] in Hread.
  cbn [height] in Hheight. apply le_S_n in Hheight.
  apply list_max_le in Hheight.
  cbn [generate_class_in]. rewrite Hread.
  assert (Hmembers :
            all_some
              (map
                 (fun '(key, value) =>
                    match heap.read h value with
                    | Some (heap.Opt o) => Some (option_lines indent key o)
                    | Some (heap.Dict _) =>
                        option_map
                          (cons (indent ++ "    " ++ key ++ ": "
                                 ++ "_" ++ snake_to_camel key))
                          (generate_class_in fuel h ("_" ++ snake_to_camel key)
                             value (indent ++ "    ") None)
                    | None => None
                    end)
                 (references children))
            = Some (map (fun '(k, c) => class_member indent k (value_of c)) children)).
  { clear Hread Hobjs. induction children as [| [k c] children IHc]; [reflexivity |].
    rewrite child_objects_cons in Hchildren.
    apply Forall_app in Hchildren as [Hc Hchildren].
    cbn [map] in Hheight. inversion Hheight as [| ? ? Hhc Hhrest]; subst.
    cbn [references map]. fold (references children).
    specialize (IHc Hhrest Hchildren).
    destruct c as [lc o | lc chc]; cbn [reference value_of].
    - inversion Hc as [| ? ? [Hrc _] _]; subst. cbn [fst snd] in Hrc.
      rewrite Hrc. cbn [all_some]. rewrite IHc. reflexivity.
    - pose proof Hc as Hc'. cbn [objects] in Hc'.
      inversion Hc' as [| ? ? [Hrc _] _]; subst. cbn [fst snd] in Hrc.
      rewrite Hrc. rewrite (IH lc chc _ _ None Hc Hhc).
      cbn [option_map all_some]. rewrite IHc. cbn [option_map].
      fold (values_of chc). now rewrite class_member_VDict. }
  rewrite Hmembers. cbn [option_map]. f_equal.
  rewrite generate_class_eq. f_equal.
  unfold values_of. rewrite flat_map_concat_map, map_map. f_equal.
  apply map_ext. now intros [k c].
Qed.

Lemma generate_config_types_in_spec h config config_data :
  snapshot h config = Some config_data ->
  exists h1 enough,
    (forall x, x < List.length h -> heap.read h1 x = heap.read h x)
    /\ forall fuel,
         enough <= fuel ->
         generate_config_types_in fuel config h
         = (h1, Some (generate_config_types config_data)).
Proof.
  intros Hsnap.
  destruct (make_nested_config_in_spec h config config_data Hsnap)
    as (h1 & r & Hrun & Hframe & Hres).
  unfold generate_config_types_in, generate_config_types. rewrite Hrun.
  destruct (make_nested_config config_data) as [tree | e]; cbn [py.bind].
  - destruct Hres as (-> & children & Hholds & <-).
    exists h1, (height (LDict (List.length h) children)).
    split; [exact Hframe |]. intros fuel Hfuel.
    now rewrite (generate_class_in_spec _ _ _ _ _ _ _ _ (proj1 Hholds) Hfuel).
  - subst r. exists h1, 0. split; [exact Hframe |]. reflexivity.
Qed.

Lemma snapshot_frame h h1 config config_data :
  (forall x, x < List.length h -> heap.read h1 x = heap.read h x) ->
  snapshot h config = Some config_data ->
  snapshot h1 config = Some config_data.
Proof.
  intros Hframe Hsnap.
  apply snapshot_refers in Hsnap as (items & Hread & Hrefers).
  apply snapshot_refers. exists items. split.
  - rewrite Hframe; [exact Hread | eapply read_lt, Hread].
  - clear Hread. induction Hrefers as [| item kv items config' (Hk & Hlt & Hr) _ IH];
      constructor; [| exact IH].
    split; [exact Hk |]. rewrite Hframe by exact Hlt.
    split; [eapply read_lt; rewrite Hframe by exact Hlt; exact Hr | exact Hr].
Qed.

(** C8.  Two runs of the generator, one after the other on the same
    objects, give the same result, character for character: the first run
    builds its dictionaries in new objects and writes to these only, so
    the second run finds the mapping and the options as the first did.
    The result is that of [generate_config_types] on the mapping. *)
Theorem two_runs_give_the_same_text h config_data config :
  snapshot h config_data = Some config ->
  exists enough,
    forall fuel,
      enough <= fuel ->
      let (h1, first) := generate_config_types_in fuel config_data h in
      let (h2, second) := generate_config_types_in fuel config_data h1 in
      first = second
      /\ first = Some (generate_config_types config)
      /\ snapshot h2 config_data = Some config.
Proof.
  intros Hsnap.
  destruct (generate_config_types_in_spec h config_data config Hsnap)
    as (h1 & enough1 & Hframe1 & Hrun1).
  pose proof (snapshot_frame _ _ _ _ Hframe1 Hsnap) as Hsnap1.
  destruct (generate_config_types_in_spec h1 config_data config Hsnap1)
    as (h2 & enough2 & Hframe2 & Hrun2).
  exists (Nat.max enough1 enough2). intros fuel Hfuel.
  rewrite Hrun1 by lia. rewrite Hrun2 by lia.
  split; [reflexivity |]. split; [reflexivity |].
  now apply (snapshot_frame _ _ _ _ Hframe2).
Qed.

Lemma two_runs_give_the_same_text_witness :
  exists enough,
    forall fuel,
      enough <= fuel ->
      let (h1, first) := generate_config_types_in fuel 2 scenario_heap in
      let (h2, second) := generate_config_types_in fuel 2 h1 in
      first = second
      /\ first = Some (generate_config_types scenario)
      /\ snapshot h2 2 = Some scenario.
Proof.
  apply (two_runs_give_the_same_text scenario_heap 2 scenario). reflexivity.
Defined.
